(** * ForBot: the completion gateway and the dialogue router of [app.py]

    A shallow embedding of the two pieces of logic of the Telegram bot:
    [generate_response_with_retry] (the retried call to the generative
    model) and the handlers [start], [handle_callback], [handle_message]
    with the per-user [context.user_data] dictionary.

    Python strings are embedded as [string], the UTF-8 bytes of the source
    literal.  Emptiness, equality and concatenation coincide with those of
    the code points, and so does the search for an ASCII needle
    ([in] at line 80), because no ASCII byte occurs inside a multi-byte
    UTF-8 sequence. *)

From Stdlib Require Import ZArith String List Bool Lia.
From stdpp Require Import base option gmap strings list.
Import ListNotations.

Local Open Scope string_scope.
Local Open Scope list_scope.
Local Open Scope Z_scope.

(** ** Constants (lines 20-23) *)

Definition LANG_AMHARIC : string := "AM".
Definition LANG_ENGLISH : string := "EN".
Definition ACTION_ABOUT : string := "ABOUT_CH".
Definition MAX_RETRIES : nat := 3.

(** ** The outside world *)

(** Exceptions that a call into the model client can raise, by the class
    the [except] clauses of lines 75-89 tell apart.  [APIError] and
    [OtherException] carry [str(e)].  [NonException] stands for the
    classes that derive from [BaseException] only ([KeyboardInterrupt],
    [SystemExit]): no clause of the function names them. *)
Inductive exn : Type :=
| ResourceExhaustedError
| APIError (msg : string)
| OtherException (msg : string)
| NonException (name : string).

(** What [model.generate_content(prompt)] followed by [response.text]
    (lines 69-70) amounts to: a text, possibly empty, or an exception
    raised by either of them inside the [try]. *)
Inductive outcome : Type :=
| Response (text : string)
| Raises (e : exn).

(** A configured client: the answer to the call number [n] (counted from
    0 over the life of the process) on a prompt. *)
Definition client : Type := nat -> string -> outcome.

Definition button : Type := (string * string)%type.   (* label, callback_data *)

(** Observable effects, in the order the code performs them. *)
Inductive event : Type :=
| EvGenerate (prompt : string)                     (* model.generate_content *)
| EvSleep (secs : Z)                               (* time.sleep *)
| EvLogWarning (attempt_no : nat)                  (* logging.warning, line 71 *)
| EvLogError (e : exn)                             (* logging.error, lines 79, 90 *)
| EvAnswer                                         (* query.answer *)
| EvEditMessageText (text : string) (markup : list (list button))
| EvSendMessage (chat_id : Z) (text : string)      (* bot.send_message *)
| EvReplyText (text : string) (markup : option (list (list button)))
| EvChatAction (chat_id : Z) (action : string).    (* bot.send_chat_action *)

(** The mutable state the handlers share: the [user_data] dictionaries,
    keyed by user id, the number of calls the client has answered, and
    the log of effects. *)
Record world : Type := World {
  sessions : gmap Z (gmap string string);
  ncalls : nat;
  trace : list event
}.

Definition initial_world : world := World ∅ 0%nat [].

(** ** A state monad over [world] *)

Definition M (A : Type) : Type := world -> A * world.

Definition ret {A} (a : A) : M A := fun w => (a, w).

Definition bind {A B} (m : M A) (k : A -> M B) : M B :=
  fun w => let (a, w') := m w in k a w'.

Declare Scope bot_scope.
Delimit Scope bot_scope with bot.
Notation "x <- m ;; k" := (bind m (fun x => k))
  (at level 100, m at next level, right associativity) : bot_scope.
Notation "m ;;; k" := (bind m (fun _ => k))
  (at level 100, right associativity) : bot_scope.
Local Open Scope bot_scope.

Definition emit (e : event) : M unit :=
  fun w => (tt, World (sessions w) (ncalls w) (trace w ++ [e])).

(** ** The completion gateway (lines 62-95) *)

Definition MSG_NO_MODEL : string :=
  "🛑 ERROR: Gemini API key is missing or invalid. Please check the server configuration.".
Definition MSG_QUOTA : string :=
  "ይቅርታ፣ የቦቱ የዕለታዊ የአጠቃቀም ገደብ ስለተሟላ መልስ መስጠት አልቻልኩም። (Sorry, the bot's daily usage limit has been met.)".
Definition MSG_INVALID_KEY : string :=
  "⚠️ ይቅርታ፣ ያገለገሉት ቁልፍ (API Key) ልክ አይደለም። እባክዎ የአገልግሎት ሰጪውን Environment Variables በትክክል ያረጋግጡ።".
Definition MSG_TECHNICAL : string :=
  "ይቅርታ፣ በኔትወርክ ወይም በቴክኒካዊ ችግር ምክንያት ምላሽ መስጠት አልቻልኩም። (Sorry, failed to respond due to a technical issue.)".
Definition MSG_UNKNOWN : string :=
  "ይቅርታ፣ ያልታወቀ ግንኙነት መቋረጥ አጋጥሟል። (Sorry, an unknown connection error occurred.)".
Definition MSG_ALL_FAILED : string :=
  "ይቅርታ፣ የመልስ ሙከራው ሁሉ አልተሳካም።".

(** [needle in hay] of Python, on strings. *)
Fixpoint contains (needle hay : string) : bool :=
  String.prefix needle hay ||
  match hay with
  | EmptyString => false
  | String _ rest => contains needle rest
  end.

(** Python's truth value of a string: [not s] holds for the empty one. *)
Definition is_empty (s : string) : bool :=
  match s with EmptyString => true | _ => false end.

(** The [return] statement a call left through, named by its line. *)
Inductive return_site : Type := L65 | L73 | L76 | L81 | L87 | L94 | L95.

(** How a call ends: at a [return], or with an exception that no clause
    caught. *)
Inductive result : Type :=
| Returned (site : return_site) (text : string)
| Propagated (e : exn).

(** What one pass through the loop body does to the loop. *)
Inductive control : Type :=
| Continue
| Return (site : return_site) (text : string)
| Raise (e : exn).

(** [model.generate_content(prompt)]: the client answers its next call. *)
Definition generate_content (model : client) (prompt : string) : M outcome :=
  fun w => (model (ncalls w) prompt,
            World (sessions w) (S (ncalls w)) (trace w ++ [EvGenerate prompt])).

(** Lines 69-73, the [try] block: a text to return, or the exception that
    leaves the block. *)
Definition try_block (model : client) (prompt : string) (attempt : nat)
  : M (string + exn) :=
  response <- generate_content model prompt ;;
  match response with
  | Response text =>
      if is_empty text then
        emit (EvLogWarning (attempt + 1)) ;;;
        ret (inr (OtherException "Empty response received"))
      else ret (inl text)
  | Raises e => ret (inr e)
  end.

(** Lines 84-87 and 91-94: sleep and go on, or give up with [fallback]. *)
Definition backoff_or (attempt : nat) (site : return_site) (fallback : string)
  : M control :=
  if (attempt <? MAX_RETRIES - 1)%nat then
    emit (EvSleep (2 ^ Z.of_nat attempt)) ;;; ret Continue
  else ret (Return site fallback).

(** Lines 75-94, the [except] clauses in their order. *)
Definition except_clauses (attempt : nat) (e : exn) : M control :=
  match e with
  | ResourceExhaustedError => ret (Return L76 MSG_QUOTA)
  | APIError msg =>
      emit (EvLogError e) ;;;
      if contains "API key not valid" msg then ret (Return L81 MSG_INVALID_KEY)
      else backoff_or attempt L87 MSG_TECHNICAL
  | OtherException _ =>
      emit (EvLogError e) ;;;
      backoff_or attempt L94 MSG_UNKNOWN
  | NonException _ => ret (Raise e)
  end.

(** One iteration of the [for] loop (lines 68-94). *)
Definition loop_body (model : client) (prompt : string) (attempt : nat)
  : M control :=
  r <- try_block model prompt attempt ;;
  match r with
  | inl text => ret (Return L73 text)
  | inr e => except_clauses attempt e
  end.

(** [for attempt in attempts: ...] followed by line 95. *)
Fixpoint for_attempts (model : client) (prompt : string) (attempts : list nat)
  : M result :=
  match attempts with
  | [] => ret (Returned L95 MSG_ALL_FAILED)
  | attempt :: rest =>
      c <- loop_body model prompt attempt ;;
      match c with
      | Continue => for_attempts model prompt rest
      | Return site text => ret (Returned site text)
      | Raise e => ret (Propagated e)
      end
  end.

(** [model] is the global of lines 45-54: [None] when the key is missing
    or the configuration failed. *)
Definition generate_response_with_retry (model : option client) (prompt : string)
  : M result :=
  match model with
  | None => ret (Returned L65 MSG_NO_MODEL)
  | Some m => for_attempts m prompt (seq 0 MAX_RETRIES)
  end.

(** ** The dialogue router (lines 98-156) *)

Definition NL : string := String (Ascii.ascii_of_nat 10) EmptyString.   (* "\n" *)

(** [context.user_data]: the dictionary of the user.  The store behind it
    hands out a fresh empty dictionary for a user it has not seen and
    keeps it, so the first read already leaves an (empty) entry. *)
Definition user_data (uid : Z) : M (gmap string string) :=
  fun w =>
    let ud := default ∅ (sessions w !! uid) in
    (ud, World (<[uid := ud]> (sessions w)) (ncalls w) (trace w)).

(** [context.user_data[key] = value]. *)
Definition user_data_set (uid : Z) (key value : string) : M unit :=
  ud <- user_data uid ;;
  fun w => (tt, World (<[uid := <[key := value]> ud]> (sessions w))
                      (ncalls w) (trace w)).

(** Lines 98-109. *)
Definition start : M unit :=
  let keyboard :=
    [ [("አማርኛ (Amharic)", LANG_AMHARIC)];
      [("English (English)", LANG_ENGLISH)] ] in
  emit (EvReplyText
          ("እባክዎ የሚጠቀሙበትን ቋንቋ ይምረጡ።" +:+ NL +:+ "Please select your preferred language.")
          (Some keyboard)).

Definition ABOUT_TEXT_AM : string :=
  "የTabor Systems ቻናል በዋናነት የሚያተኩረው በ IT Support & Networking፣ Fullstack Web Development እና Database Administration ላይ ነው። መሪ ቃሉ፡ 'ኑ አብረን እንማር!' ነው"
  +:+ NL +:+ "ተገንቢ፡ Tabor Systems".
Definition ABOUT_TEXT_EN : string :=
  "Tabor Systems Channel focuses on IT Support & Networking, Fullstack Web Development, and Database Administration. Motto: 'Come, let's learn together!'"
  +:+ NL +:+ "Built by: Tabor Systems".

(** Lines 111-146.  [uid] is [query.from_user.id], the key of
    [context.user_data]; [data] is [query.data], which may be [None]. *)
Definition handle_callback (uid chat_id : Z) (first_name : string)
    (data : option string) : M unit :=
  emit EvAnswer ;;;
  let user_name := if is_empty first_name then "ጌታዬ" else first_name in
  match data with
  | Some d =>
      if existsb (String.eqb d) [LANG_AMHARIC; LANG_ENGLISH] then
        user_data_set uid "lang" d ;;;
        let '(main_message, about_btn_text) :=
          if String.eqb d LANG_AMHARIC then
            let welcome_text :=
              "ሰላም 👋 " +:+ user_name +:+ "፣ እንኳን ወደ Tabor Systems Ai በደኅና መጡ።" in
            (welcome_text +:+ NL +:+ NL +:+
               "አሁን ማንኛውንም አይነት ጥያቄ መጠየቅ ይችላሉ። እኔ በTabor Systems የተገነባሁ ሲሆን በቴክኖሎጂ፣ በዌብ ዴቨሎፕመንት እና በኔትወርኪንግ ዙሪያ ልረዳዎ እችላለሁ።",
             "ℹ️ ስለ ቻናሉ")
          else
            let welcome_text :=
              "Hello 👋 " +:+ user_name +:+ ", welcome to Tabor Systems AI." in
            (welcome_text +:+ NL +:+ NL +:+
               "You can now ask me any question. I was built by Tabor Systems and can assist you with technology, web development, and networking topics.",
             "ℹ️ About Channel") in
        let main_keyboard := [ [(about_btn_text, ACTION_ABOUT)] ] in
        emit (EvEditMessageText main_message main_keyboard)
      else if String.eqb d ACTION_ABOUT then
        ud <- user_data uid ;;
        let lang := default LANG_AMHARIC (ud !! "lang") in
        let about_text :=
          if String.eqb lang LANG_AMHARIC then ABOUT_TEXT_AM else ABOUT_TEXT_EN in
        emit (EvSendMessage chat_id about_text)
      else ret tt
  | None => ret tt   (* None is in no list of strings and equals no string *)
  end.

(** Lines 148-156.  [None] when the handler ran to its end, [Some e] when
    [e] left it. *)
Definition handle_message (model : option client) (chat_id : Z)
    (text : option string) : M (option exn) :=
  match text with
  | None => ret None
  | Some user_text =>
      if is_empty user_text then ret None
      else
        emit (EvChatAction chat_id "typing") ;;;
        r <- generate_response_with_retry model user_text ;;
        match r with
        | Returned _ response_text =>
            emit (EvReplyText response_text None) ;;; ret None
        | Propagated e => ret (Some e)
        end
  end.

(** One run of a registered handler (lines 159-163). *)
Inductive invocation : Type :=
| InvStart
| InvCallback (uid chat_id : Z) (first_name : string) (data : option string)
| InvMessage (chat_id : Z) (text : option string).

Definition invoke (model : option client) (w : world) (i : invocation) : world :=
  match i with
  | InvStart => snd (start w)
  | InvCallback uid chat_id first_name data =>
      snd (handle_callback uid chat_id first_name data w)
  | InvMessage chat_id text => snd (handle_message model chat_id text w)
  end.

Definition run_all (model : option client) (invs : list invocation) : world :=
  fold_left (invoke model) invs initial_world.

(** ** Reading a run *)

Definition generate_calls (tr : list event) : list string :=
  flat_map (fun e => match e with EvGenerate p => [p] | _ => [] end) tr.

Definition sleeps (tr : list event) : list Z :=
  flat_map (fun e => match e with EvSleep n => [n] | _ => [] end) tr.

(** Outbound messages: what the user gets to read. *)
Definition is_message (e : event) : bool :=
  match e with
  | EvEditMessageText _ _ | EvSendMessage _ _ | EvReplyText _ _ => true
  | _ => false
  end.

(** The language stored for a user, if any. *)
Definition stored_lang (w : world) (uid : Z) : option string :=
  sessions w !! uid ≫= (.!! "lang").

(** A language a session may hold: none, or one of the two codes. *)
Definition valid_lang (o : option string) : Prop :=
  o = None \/ o = Some LANG_AMHARIC \/ o = Some LANG_ENGLISH.

Definition sessions_valid (w : world) : Prop :=
  forall uid, valid_lang (stored_lang w uid).

(** The calls and the sleeps of a trace, in the order they happened. *)
Definition steps (tr : list event) : list event :=
  List.filter (fun e => match e with
                        | EvGenerate _ | EvSleep _ => true
                        | _ => false
                        end) tr.

(** What the attempt that ends the loop makes of the answer of the
    client: the text, or the [return] of the clause that catches the
    failure (lines 73, 76, 81, 87, 94). *)
Definition last_word (o : outcome) : result :=
  match o with
  | Response text =>
      if is_empty text then Returned L94 MSG_UNKNOWN else Returned L73 text
  | Raises ResourceExhaustedError => Returned L76 MSG_QUOTA
  | Raises (APIError msg) =>
      if contains "API key not valid" msg
      then Returned L81 MSG_INVALID_KEY
      else Returned L87 MSG_TECHNICAL
  | Raises (OtherException _) => Returned L94 MSG_UNKNOWN
  | Raises (NonException name) => Propagated (NonException name)
  end.

(** A run of the gateway from a fresh process. *)
Definition gateway (model : option client) (prompt : string) : result * world :=
  generate_response_with_retry model prompt initial_world.

Definition fail_twice_then_hi : client :=
  fun n _ => match n with
             | 0%nat | 1%nat => Raises (APIError "503 unavailable")
             | _ => Response "hi"
             end.
Definition always_empty : client := fun _ _ => Response "".
Definition always_api_error : client := fun _ _ => Raises (APIError "503 unavailable").


(** The text a call handed back, if it returned. *)
Definition reply (r : result) : option string :=
  match r with
  | Returned _ text => Some text
  | Propagated _ => None
  end.

(** The failures that the loop answers with another attempt: an empty
    text, an [APIError] that does not speak of the key, and any other
    [Exception]. *)
Definition retried (o : outcome) : bool :=
  match o with
  | Response text => is_empty text
  | Raises (APIError msg) => negb (contains "API key not valid" msg)
  | Raises (OtherException _) => true
  | Raises ResourceExhaustedError | Raises (NonException _) => false
  end.

(** The client fails only with Python [Exception]s on this prompt. *)
Definition raises_only_exceptions (model : client) (prompt : string) : Prop :=
  forall n name, model n prompt <> Raises (NonException name).

(** The same for the global [model], which may be [None]. *)
Definition model_raises_only_exceptions (model : option client) (prompt : string)
  : Prop :=
  match model with
  | None => True
  | Some m => raises_only_exceptions m prompt
  end.

Definition always_quota : client := fun _ _ => Raises ResourceExhaustedError.
Definition always_bad_key : client :=
  fun _ _ => Raises (APIError "400 API key not valid. Please pass a valid API key.").

(** ** Reading a run: messages, buttons, kinds of handler runs *)

(** The effects of the gateway itself: calls, sleeps and log records. *)
Definition is_internal (e : event) : bool :=
  match e with
  | EvGenerate _ | EvSleep _ | EvLogWarning _ | EvLogError _ => true
  | _ => false
  end.

Definition messages (tr : list event) : list event := List.filter is_message tr.

Definition answers (tr : list event) : list event :=
  List.filter (fun e => match e with EvAnswer => true | _ => false end) tr.

(** The [callback_data] of the buttons of a keyboard, row by row. *)
Definition keyboard_codes (kb : list (list button)) : list string :=
  map snd (List.concat kb).

(** The [callback_data] of every button the bot has shown. *)
Definition offered (tr : list event) : list string :=
  flat_map (fun e => match e with
                     | EvEditMessageText _ kb => keyboard_codes kb
                     | EvReplyText _ (Some kb) => keyboard_codes kb
                     | _ => []
                     end) tr.

(** A callback of user [uid] whose data is one of the two language codes:
    the runs that reach line 119 for that user. *)
Definition selects_language (uid : Z) (i : invocation) : bool :=
  match i with
  | InvCallback uid' _ _ (Some d) =>
      (uid' =? uid) && existsb (String.eqb d) [LANG_AMHARIC; LANG_ENGLISH]
  | _ => false
  end.

(** The callback data that lines 118 and 138 recognise. *)
Definition known_code (d : string) : Prop :=
  d = LANG_AMHARIC \/ d = LANG_ENGLISH \/ d = ACTION_ABOUT.

(** The handler runs that lead to a message: /start, a callback with a
    code that lines 118 and 138 recognise, a text that passes line 149. *)
Definition expects_reply (i : invocation) : bool :=
  match i with
  | InvStart => true
  | InvCallback _ _ _ (Some d) =>
      existsb (String.eqb d) [LANG_AMHARIC; LANG_ENGLISH; ACTION_ABOUT]
  | InvCallback _ _ _ None => false
  | InvMessage _ (Some text) => negb (is_empty text)
  | InvMessage _ None => false
  end.

(** A message whose text passes line 149. *)
Definition is_text_message (i : invocation) : bool :=
  match i with
  | InvMessage _ (Some text) => negb (is_empty text)
  | _ => false
  end.

Definition quota_on_third : client :=
  fun n _ => match n with
             | 0%nat => Response ""
             | 1%nat => Raises (OtherException "connection reset")
             | _ => Raises ResourceExhaustedError
             end.
Definition bad_key_on_second : client :=
  fun n _ => match n with
             | 0%nat => Raises (APIError "503 unavailable")
             | _ => Raises (APIError "400 API key not valid.")
             end.
Definition api_error_last : client :=
  fun n _ => match n with
             | 0%nat => Response ""
             | 1%nat => Raises (OtherException "connection reset")
             | _ => Raises (APIError "503 unavailable")
             end.

(** * Properties *)

(** ** Reading traces *)

Lemma sleeps_app (t1 t2 : list event) : sleeps (t1 ++ t2) = sleeps t1 ++ sleeps t2.
Proof. unfold sleeps. apply flat_map_app. Qed.

Lemma generate_calls_app (t1 t2 : list event) :
  generate_calls (t1 ++ t2) = generate_calls t1 ++ generate_calls t2.
Proof. unfold generate_calls. apply flat_map_app. Qed.

Lemma is_empty_true (s : string) : is_empty s = true <-> s = "".
Proof. destruct s; simpl; split; congruence. Qed.

Lemma is_empty_false (s : string) : is_empty s = false <-> s <> "".
Proof. destruct s; simpl; split; congruence. Qed.

Ltac settle :=
  repeat split; simpl; auto 10; try discriminate; try (unfold MAX_RETRIES; lia).

Ltac step_body :=
  cbv [loop_body try_block except_clauses backoff_or generate_content bind ret emit].

(** ** One pass through the loop body *)

(** Every pass asks the client once, leaves the sessions alone and
    returns only through the five [return]s inside the loop, each with a
    text that is not empty; it raises only what the client raised outside
    [Exception]; it goes on only before the last attempt. *)
Lemma loop_body_cases (m : client) (p : string) (a : nat) (w : world) :
  sessions (snd (loop_body m p a w)) = sessions w /\
  ncalls (snd (loop_body m p a w)) = S (ncalls w) /\
  match fst (loop_body m p a w) with
  | Continue =>
      retried (m (ncalls w) p) = true /\ (a < MAX_RETRIES - 1)%nat
  | Return site text =>
      text <> "" /\ In site [L73; L76; L81; L87; L94]
  | Raise e =>
      exists name, e = NonException name /\ m (ncalls w) p = Raises e
  end.
Proof.
  step_body.
  destruct (m (ncalls w) p) as [text | [ | msg | msg | name]] eqn:Ho; simpl.
  - destruct (is_empty text) eqn:He; simpl.
    + destruct (a <? 2)%nat eqn:Ha; simpl; [apply Nat.ltb_lt in Ha |]; settle.
    + apply is_empty_false in He. settle.
  - settle.
  - destruct (contains _ msg) eqn:Hk; simpl; [settle |].
    destruct (a <? 2)%nat eqn:Ha; simpl; [apply Nat.ltb_lt in Ha |]; settle.
  - destruct (a <? 2)%nat eqn:Ha; simpl; [apply Nat.ltb_lt in Ha |]; settle.
  - settle. exists name. auto.
Qed.

(** ** The loop *)

Lemma for_attempts_sessions (m : client) (p : string) (attempts : list nat) :
  forall w, sessions (snd (for_attempts m p attempts w)) = sessions w.
Proof.
  induction attempts as [| a rest IH]; intros w; simpl; [reflexivity |].
  unfold bind. pose proof (loop_body_cases m p a w) as (Hs & _ & _).
  destruct (loop_body m p a w) as [[ | site text | e] w']; simpl in *; auto.
  rewrite IH. exact Hs.
Qed.

Lemma for_attempts_returns (m : client) (p : string) (attempts : list nat) :
  raises_only_exceptions m p ->
  forall w, exists site text,
    fst (for_attempts m p attempts w) = Returned site text /\ text <> "".
Proof.
  intros Hexc.
  induction attempts as [| a rest IH]; intros w; simpl.
  - exists L95, MSG_ALL_FAILED. split; [reflexivity | discriminate].
  - unfold bind. pose proof (loop_body_cases m p a w) as (_ & _ & Hc).
    destruct (loop_body m p a w) as [[ | site text | e] w']; simpl in *.
    + apply IH.
    + exists site, text. tauto.
    + destruct Hc as (name & -> & Hraise). exfalso. exact (Hexc _ _ Hraise).
Qed.

(** A loop whose last attempt is the one that may not sleep is never left
    through its end. *)
Lemma for_attempts_inside (m : client) (p : string) (attempts : list nat) :
  attempts <> [] ->
  (MAX_RETRIES - 1 <= List.last attempts 0)%nat ->
  forall w,
    match fst (for_attempts m p attempts w) with
    | Returned site _ => In site [L73; L76; L81; L87; L94]
    | Propagated e => exists name, e = NonException name
    end.
Proof.
  induction attempts as [| a rest IH]; intros Hne Hlast w; [congruence |].
  simpl for_attempts. unfold bind.
  pose proof (loop_body_cases m p a w) as (_ & _ & Hc).
  destruct (loop_body m p a w) as [[ | site text | e] w']; simpl fst in *.
  - destruct rest as [| b rest'].
    + simpl in Hlast. unfold MAX_RETRIES in *. lia.
    + apply IH; [discriminate | exact Hlast].
  - destruct Hc as [_ Hc]. exact Hc.
  - destruct Hc as (name & -> & _). simpl. eauto.
Qed.

(** ** The gateway *)

(** C1. Whatever the prompt and whatever the client does among returning
    a text, returning an empty text, raising the quota error, an API
    error or any other [Exception], and also when no client was
    configured, [generate_response_with_retry] ends at a [return] and the
    text it returns is not empty. *)
Theorem generate_never_raises (model : option client) (p : string) (w : world) :
  model_raises_only_exceptions model p ->
  exists site text,
    fst (generate_response_with_retry model p w) = Returned site text /\
    text <> "".
Proof.
  destruct model as [m |]; intros Hexc.
  - apply (for_attempts_returns m p (seq 0 MAX_RETRIES) Hexc w).
  - exists L65, MSG_NO_MODEL. split; [reflexivity | discriminate].
Qed.

Lemma generate_never_raises_witness :
  model_raises_only_exceptions (Some always_empty) "q" /\
  exists site text,
    fst (generate_response_with_retry (Some always_empty) "q" initial_world)
      = Returned site text /\ text <> "".
Proof.
  assert (H : model_raises_only_exceptions (Some always_empty) "q")
    by (intros n name; discriminate).
  split; [exact H |].
  exact (generate_never_raises (Some always_empty) "q" initial_world H).
Defined.

(** C4. When the first call raises [ResourceExhaustedError], the function
    returns the daily-limit text at line 76; the one call is its only
    effect: no second call, no sleep. *)
Theorem quota_returns_at_once (m : client) (p : string) (w : world) :
  m (ncalls w) p = Raises ResourceExhaustedError ->
  generate_response_with_retry (Some m) p w =
    (Returned L76 MSG_QUOTA,
     World (sessions w) (S (ncalls w)) (trace w ++ [EvGenerate p])).
Proof.
  intros H. simpl. step_body. rewrite H. reflexivity.
Qed.

Lemma quota_returns_at_once_witness :
  always_quota (ncalls initial_world) "q" = Raises ResourceExhaustedError /\
  generate_response_with_retry (Some always_quota) "q" initial_world =
    (Returned L76 MSG_QUOTA, World ∅ 1 [EvGenerate "q"]).
Proof.
  split; [reflexivity |].
  exact (quota_returns_at_once always_quota "q" initial_world eq_refl).
Defined.

(** C5. When the first call raises an [APIError] whose text contains
    "API key not valid", the function returns the invalid-key text at
    line 81; it has made one call and logged the error: no second call,
    no sleep. *)
Theorem invalid_key_returns_at_once (m : client) (p msg : string) (w : world) :
  m (ncalls w) p = Raises (APIError msg) ->
  contains "API key not valid" msg = true ->
  generate_response_with_retry (Some m) p w =
    (Returned L81 MSG_INVALID_KEY,
     World (sessions w) (S (ncalls w))
           ((trace w ++ [EvGenerate p]) ++ [EvLogError (APIError msg)])).
Proof.
  intros H Hk. simpl. step_body. rewrite H, Hk. reflexivity.
Qed.

Lemma invalid_key_returns_at_once_witness :
  (always_bad_key (ncalls initial_world) "q" =
     Raises (APIError "400 API key not valid. Please pass a valid API key.") /\
   contains "API key not valid"
     "400 API key not valid. Please pass a valid API key." = true) /\
  generate_response_with_retry (Some always_bad_key) "q" initial_world =
    (Returned L81 MSG_INVALID_KEY,
     World ∅ 1
       [EvGenerate "q";
        EvLogError (APIError "400 API key not valid. Please pass a valid API key.")]).
Proof.
  split; [split; reflexivity |].
  exact (invalid_key_returns_at_once always_bad_key "q" _ initial_world
           eq_refl eq_refl).
Defined.

(** C9. With [MAX_RETRIES = 3] line 95 is never reached: a run with a
    configured client leaves through one of the five [return]s inside the
    loop (or with the non-[Exception] the client raised), and a run
    without a client leaves at line 65. *)
Theorem final_return_unreachable (model : option client) (p : string) (w : world) :
  (forall text, fst (generate_response_with_retry model p w) <> Returned L95 text) /\
  (forall m, model = Some m ->
     match fst (generate_response_with_retry model p w) with
     | Returned site _ => In site [L73; L76; L81; L87; L94]
     | Propagated e => exists name, e = NonException name
     end).
Proof.
  assert (Hin : forall m,
    match fst (for_attempts m p (seq 0 MAX_RETRIES) w) with
    | Returned site _ => In site [L73; L76; L81; L87; L94]
    | Propagated e => exists name, e = NonException name
    end).
  { intros m. apply for_attempts_inside; simpl; [discriminate | unfold MAX_RETRIES; lia]. }
  split.
  - destruct model as [m |]; simpl; intros text Heq; [| discriminate].
    specialize (Hin m). simpl in Hin. rewrite Heq in Hin.
    simpl in Hin. intuition discriminate.
  - intros m ->. apply Hin.
Qed.

(** What the two results above rest on.  A class outside [Exception]
    goes through every clause, and a loop that stops before attempt 2
    does fall through to line 95. *)
Example interrupt_propagates :
  fst (gateway (Some (fun _ _ => Raises (NonException "KeyboardInterrupt"))) "q")
    = Propagated (NonException "KeyboardInterrupt").
Proof. reflexivity. Qed.

Example shorter_loop_reaches_line_95 :
  fst (for_attempts always_api_error "q" [0%nat; 1%nat] initial_world)
    = Returned L95 MSG_ALL_FAILED.
Proof. reflexivity. Qed.

(** ** Retries and backoff *)

Ltac read_trace :=
  rewrite ?sleeps_app, ?generate_calls_app; simpl; rewrite ?app_nil_r.

(** A retried failure before the last attempt: one call, one sleep of
    [2 ** attempt], and the loop goes on. *)
Lemma attempt_retried (m : client) (p : string) (a : nat) (w : world) :
  retried (m (ncalls w) p) = true ->
  (a < MAX_RETRIES - 1)%nat ->
  exists w',
    loop_body m p a w = (Continue, w') /\
    ncalls w' = S (ncalls w) /\
    sleeps (trace w') = sleeps (trace w) ++ [2 ^ Z.of_nat a] /\
    generate_calls (trace w') = generate_calls (trace w) ++ [p].
Proof.
  intros Hr Ha. step_body.
  assert (Hlt : (a <? 2)%nat = true) by (apply Nat.ltb_lt; exact Ha).
  destruct (m (ncalls w) p) as [text | [ | msg | msg | name]];
    simpl in Hr; try discriminate.
  - rewrite Hr. simpl. rewrite Hlt. eexists. repeat split; simpl; read_trace; reflexivity.
  - apply negb_true_iff in Hr. rewrite Hr. simpl. rewrite Hlt.
    eexists. repeat split; simpl; read_trace; reflexivity.
  - simpl. rewrite Hlt. eexists. repeat split; simpl; read_trace; reflexivity.
Qed.

(** The attempt that ends the loop, because it is the last one or because
    its outcome is not retried: one call and no sleep. *)
Lemma attempt_last (m : client) (p : string) (a : nat) (w : world) :
  retried (m (ncalls w) p) = false \/ (MAX_RETRIES - 1 <= a)%nat ->
  exists c w',
    loop_body m p a w = (c, w') /\
    c <> Continue /\
    sleeps (trace w') = sleeps (trace w) /\
    generate_calls (trace w') = generate_calls (trace w) ++ [p] /\
    (forall t, m (ncalls w) p = Response t -> t <> "" -> c = Return L73 t).
Proof.
  intros Hend. step_body.
  destruct (m (ncalls w) p) as [text | [ | msg | msg | name]]; simpl in Hend.
  - destruct (is_empty text) eqn:He; simpl.
    + destruct Hend as [Hend | Hend]; [discriminate |].
      assert (Hge : (a <? 2)%nat = false)
        by (apply Nat.ltb_ge; exact Hend).
      rewrite Hge. do 2 eexists. repeat split; simpl; read_trace;
        try reflexivity; try discriminate.
      intros t [= <-] Ht. apply is_empty_true in He. contradiction.
    + do 2 eexists. repeat split; simpl; read_trace;
        try reflexivity; try discriminate.
      intros t [= <-] _. reflexivity.
  - do 2 eexists. repeat split; simpl; read_trace;
      try reflexivity; discriminate.
  - destruct (contains _ msg) eqn:Hk; simpl.
    + do 2 eexists. repeat split; simpl; read_trace;
        try reflexivity; discriminate.
    + destruct Hend as [Hend | Hend]; [discriminate |].
      assert (Hge : (a <? 2)%nat = false)
        by (apply Nat.ltb_ge; exact Hend).
      rewrite Hge. do 2 eexists. repeat split; simpl; read_trace;
        try reflexivity; discriminate.
  - destruct Hend as [Hend | Hend]; [discriminate |].
    assert (Hge : (a <? 2)%nat = false)
      by (apply Nat.ltb_ge; exact Hend).
    simpl. rewrite Hge. do 2 eexists. repeat split; simpl; read_trace;
      try reflexivity; discriminate.
  - do 2 eexists. repeat split; simpl; read_trace;
      try reflexivity; discriminate.
Qed.

Lemma seq_attempts (a : nat) :
  (a < MAX_RETRIES)%nat ->
  seq a (MAX_RETRIES - a) = a :: seq (S a) (MAX_RETRIES - S a).
Proof.
  intros Ha. replace (MAX_RETRIES - a)%nat with (S (MAX_RETRIES - S a)) by lia.
  reflexivity.
Qed.

(** The whole schedule: when the [k] attempts from [a] on are retried
    failures and the next one ends the loop, the run sleeps
    [2 ** a], ..., [2 ** (a + k - 1)] and makes [k + 1] calls. *)
Lemma for_attempts_schedule (m : client) (p : string) :
  forall (k a : nat) (w : world),
    (a + k < MAX_RETRIES)%nat ->
    (forall i, (i < k)%nat -> retried (m (ncalls w + i)%nat p) = true) ->
    (retried (m (ncalls w + k)%nat p) = false \/
     (a + k)%nat = (MAX_RETRIES - 1)%nat) ->
    let (r, w') := for_attempts m p (seq a (MAX_RETRIES - a)) w in
    sleeps (trace w') =
      sleeps (trace w) ++ map (fun i => 2 ^ Z.of_nat i) (seq a k) /\
    generate_calls (trace w') = generate_calls (trace w) ++ repeat p (S k) /\
    (forall t, m (ncalls w + k)%nat p = Response t -> t <> "" ->
               r = Returned L73 t).
Proof.
  induction k as [| k IH]; intros a w Hlt Hfail Hstop.
  - rewrite (seq_attempts a) by lia.
    rewrite Nat.add_0_r in *. cbn [for_attempts]. unfold bind.
    destruct (attempt_last m p a w) as (c & w' & -> & Hc & Hs & Hg & Ht).
    { destruct Hstop; [left; assumption | right; lia]. }
    destruct c as [ | site text | e]; [congruence | |]; simpl;
      rewrite Hs, Hg, app_nil_r; repeat split; auto.
    + intros t Ho Hne. specialize (Ht t Ho Hne). congruence.
    + intros t Ho Hne. specialize (Ht t Ho Hne). congruence.
  - rewrite (seq_attempts a) by lia.
    cbn [for_attempts]. unfold bind.
    destruct (attempt_retried m p a w) as (w' & -> & Hn & Hs & Hg).
    { specialize (Hfail 0%nat). rewrite Nat.add_0_r in Hfail. apply Hfail. lia. }
    { unfold MAX_RETRIES in *. lia. }
    specialize (IH (S a) w').
    destruct (for_attempts m p (seq (S a) (MAX_RETRIES - S a)) w') as [r w''].
    rewrite Hn, Hs, Hg in IH.
    replace (S (ncalls w) + k)%nat with (ncalls w + S k)%nat in IH by lia.
    destruct IH as (IHs & IHg & IHt).
    + lia.
    + intros i Hi. replace (S (ncalls w) + i)%nat with (ncalls w + S i)%nat by lia.
      apply Hfail. lia.
    + destruct Hstop; [left; assumption | right; lia].
    + repeat split.
      * rewrite IHs, <- app_assoc. reflexivity.
      * rewrite IHg, <- app_assoc. reflexivity.
      * exact IHt.
Qed.

(** C2 as the spec puts it fails: after three empty texts the reply is
    not the technical-issue text of line 87. *)
Lemma empty_responses_counterexample :
  ~ (length (generate_calls (trace (snd (gateway (Some always_empty) "q")))) = 3%nat /\
     reply (fst (gateway (Some always_empty) "q")) = Some MSG_TECHNICAL).
Proof.
  intros [_ H]. vm_compute in H. discriminate H.
Qed.

(** C2, amended. When the client answers every call with an empty text,
    [generate_response_with_retry] makes exactly [MAX_RETRIES] = 3 calls,
    sleeping 1 and 2 between them, and returns at line 94 the
    unknown-error text, the fallback of the [except Exception] clause
    that catches the [Exception] of line 72. *)
Theorem empty_responses_exhaust_retries (m : client) (p : string) (w : world) :
  (forall n, m n p = Response "") ->
  let empty := OtherException "Empty response received" in
  generate_response_with_retry (Some m) p w =
    (Returned L94 MSG_UNKNOWN,
     World (sessions w) (ncalls w + MAX_RETRIES)
       (trace w ++
          [EvGenerate p; EvLogWarning 1; EvLogError empty; EvSleep 1;
           EvGenerate p; EvLogWarning 2; EvLogError empty; EvSleep 2;
           EvGenerate p; EvLogWarning 3; EvLogError empty])).
Proof.
  intros H empty. simpl. step_body. repeat (rewrite H; simpl).
  rewrite <- !app_assoc. simpl.
  replace (ncalls w + MAX_RETRIES)%nat with (S (S (S (ncalls w))))
    by (unfold MAX_RETRIES; lia).
  reflexivity.
Qed.

Lemma empty_responses_exhaust_retries_witness :
  (forall n, always_empty n "q" = Response "") /\
  generate_response_with_retry (Some always_empty) "q" initial_world =
    (Returned L94 MSG_UNKNOWN,
     World ∅ 3
       [EvGenerate "q"; EvLogWarning 1;
        EvLogError (OtherException "Empty response received"); EvSleep 1;
        EvGenerate "q"; EvLogWarning 2;
        EvLogError (OtherException "Empty response received"); EvSleep 2;
        EvGenerate "q"; EvLogWarning 3;
        EvLogError (OtherException "Empty response received")]).
Proof.
  split; [reflexivity |].
  exact (empty_responses_exhaust_retries always_empty "q" initial_world
           (fun n => eq_refl)).
Defined.

Lemma steps_app (t1 t2 : list event) : steps (t1 ++ t2) = steps t1 ++ steps t2.
Proof. unfold steps. apply List.filter_app. Qed.

Ltac read_steps := rewrite ?steps_app; simpl; rewrite ?app_nil_r, <- ?app_assoc.

(** A retried failure before the last attempt: the call, then the sleep. *)
Lemma attempt_retried_steps (m : client) (p : string) (a : nat) (w : world) :
  retried (m (ncalls w) p) = true ->
  (a < MAX_RETRIES - 1)%nat ->
  steps (trace (snd (loop_body m p a w))) =
    steps (trace w) ++ [EvGenerate p; EvSleep (2 ^ Z.of_nat a)].
Proof.
  intros Hr Ha. step_body.
  assert (Hlt : (a <? 2)%nat = true) by (apply Nat.ltb_lt; exact Ha).
  destruct (m (ncalls w) p) as [text | [ | msg | msg | name]];
    simpl in Hr; try discriminate.
  - rewrite Hr. simpl. rewrite Hlt. simpl. read_steps. reflexivity.
  - apply negb_true_iff in Hr. rewrite Hr. simpl. rewrite Hlt. simpl.
    read_steps. reflexivity.
  - simpl. rewrite Hlt. simpl. read_steps. reflexivity.
Qed.

(** The attempt that ends the loop: the call, no sleep, and the run is
    over with the [return] of the branch taken. *)
Lemma attempt_last_word
    (m : client) (p : string) (a : nat) (rest : list nat) (w : world) :
  retried (m (ncalls w) p) = false \/ (MAX_RETRIES - 1 <= a)%nat ->
  fst (for_attempts m p (a :: rest) w) = last_word (m (ncalls w) p) /\
  steps (trace (snd (for_attempts m p (a :: rest) w))) =
    steps (trace w) ++ [EvGenerate p].
Proof.
  intros Hend. cbn [for_attempts]. step_body. unfold last_word.
  destruct (m (ncalls w) p) as [text | [ | msg | msg | name]]; simpl in Hend.
  - destruct (is_empty text) eqn:He; simpl.
    + destruct Hend as [Hend | Hend]; [discriminate |].
      assert (Hge : (a <? 2)%nat = false) by (apply Nat.ltb_ge; exact Hend).
      rewrite Hge. simpl. split; [reflexivity |]. read_steps. reflexivity.
    + split; [reflexivity |]. read_steps. reflexivity.
  - simpl. split; [reflexivity |]. read_steps. reflexivity.
  - destruct (contains _ msg) eqn:Hk; simpl.
    + split; [reflexivity |]. read_steps. reflexivity.
    + destruct Hend as [Hend | Hend]; [discriminate |].
      assert (Hge : (a <? 2)%nat = false) by (apply Nat.ltb_ge; exact Hend).
      rewrite Hge. simpl. split; [reflexivity |]. read_steps. reflexivity.
  - destruct Hend as [Hend | Hend]; [discriminate |].
    assert (Hge : (a <? 2)%nat = false) by (apply Nat.ltb_ge; exact Hend).
    simpl. rewrite Hge. simpl. split; [reflexivity |]. read_steps. reflexivity.
  - simpl. split; [reflexivity |]. read_steps. reflexivity.
Qed.

(** The run step by step: a call and a sleep of [2 ** i] for each of the
    [k] retried failures, in this order, then the call that ends the
    loop, whose outcome decides what is returned. *)
Lemma for_attempts_steps (m : client) (p : string) :
  forall (k a : nat) (w : world),
    (a + k < MAX_RETRIES)%nat ->
    (forall i, (i < k)%nat -> retried (m (ncalls w + i)%nat p) = true) ->
    (retried (m (ncalls w + k)%nat p) = false \/
     (a + k)%nat = (MAX_RETRIES - 1)%nat) ->
    fst (for_attempts m p (seq a (MAX_RETRIES - a)) w) =
      last_word (m (ncalls w + k)%nat p) /\
    steps (trace (snd (for_attempts m p (seq a (MAX_RETRIES - a)) w))) =
      steps (trace w)
      ++ flat_map (fun i => [EvGenerate p; EvSleep (2 ^ Z.of_nat i)]) (seq a k)
      ++ [EvGenerate p].
Proof.
  induction k as [| k IH]; intros a w Hlt Hfail Hstop.
  - rewrite (seq_attempts a) by lia. rewrite Nat.add_0_r in *.
    apply attempt_last_word. destruct Hstop; [left; assumption | right; lia].
  - rewrite (seq_attempts a) by lia. cbn [for_attempts]. unfold bind.
    assert (Hr : retried (m (ncalls w) p) = true).
    { specialize (Hfail 0%nat). rewrite Nat.add_0_r in Hfail. apply Hfail. lia. }
    assert (Ha : (a < MAX_RETRIES - 1)%nat) by (unfold MAX_RETRIES in *; lia).
    pose proof (attempt_retried_steps m p a w Hr Ha) as Hst.
    destruct (attempt_retried m p a w Hr Ha) as (w' & Heq & Hn & _).
    rewrite Heq in Hst |- *. simpl in Hst.
    destruct (IH (S a) w') as (IHr & IHs).
    + lia.
    + intros i Hi. rewrite Hn.
      replace (S (ncalls w) + i)%nat with (ncalls w + S i)%nat by lia.
      apply Hfail. lia.
    + rewrite Hn.
      replace (S (ncalls w) + k)%nat with (ncalls w + S k)%nat by lia.
      destruct Hstop; [left; assumption | right; lia].
    + rewrite Hn in IHr.
      replace (S (ncalls w) + k)%nat with (ncalls w + S k)%nat in IHr by lia.
      split; [exact IHr |].
      rewrite IHs, Hst. cbn [seq flat_map]. rewrite <- !app_assoc. reflexivity.
Qed.

(** C3 as the spec puts it fails: a client whose every call fails with a
    plain [APIError] fails at attempt 2 as well, and no sleep of
    [2 ** 2] = 4 follows. *)
Lemma backoff_counterexample :
  ~ (forall a, (a < MAX_RETRIES)%nat ->
       retried (always_api_error a "q") = true ->
       In (2 ^ Z.of_nat a)
          (sleeps (trace (snd (gateway (Some always_api_error) "q"))))).
Proof.
  intros H.
  specialize (H 2%nat). unfold MAX_RETRIES in H.
  specialize (H ltac:(lia) eq_refl).
  vm_compute in H. destruct H as [H | [H | []]]; discriminate H.
Qed.

(** C3, amended. In a run from a fresh process whose attempts [0 .. k-1]
    are retried failures (empty text, plain [APIError], other
    [Exception]) and whose attempt [k] ends the loop (it is not such a
    failure, or it is the last attempt, [k = 2]), the function sleeps
    [2 ** i] after each failed attempt [i < k] and not after attempt
    [k]: the sleeps are 1 and 2 at most, never 4.  It makes [k + 1]
    calls, and a text that is not empty at attempt [k] is returned as it
    is.  Calls and sleeps alternate, each sleep between the failed call
    and the next one, and attempt [k] decides what is returned: a failed
    attempt 2 returns the fallback of its clause (line 87 for an
    [APIError], line 94 for an empty text or another [Exception])
    without a sleep. *)
Theorem backoff_schedule (m : client) (p : string) (k : nat) :
  (k < MAX_RETRIES)%nat ->
  (forall i, (i < k)%nat -> retried (m i p) = true) ->
  (retried (m k p) = false \/ k = (MAX_RETRIES - 1)%nat) ->
  sleeps (trace (snd (gateway (Some m) p))) =
    map (fun i => 2 ^ Z.of_nat i) (seq 0 k) /\
  generate_calls (trace (snd (gateway (Some m) p))) = repeat p (S k) /\
  (forall t, m k p = Response t -> t <> "" ->
             fst (gateway (Some m) p) = Returned L73 t) /\
  steps (trace (snd (gateway (Some m) p))) =
    flat_map (fun i => [EvGenerate p; EvSleep (2 ^ Z.of_nat i)]) (seq 0 k)
    ++ [EvGenerate p] /\
  fst (gateway (Some m) p) =
    match m k p with
    | Response text =>
        if is_empty text then Returned L94 MSG_UNKNOWN else Returned L73 text
    | Raises ResourceExhaustedError => Returned L76 MSG_QUOTA
    | Raises (APIError msg) =>
        if contains "API key not valid" msg
        then Returned L81 MSG_INVALID_KEY
        else Returned L87 MSG_TECHNICAL
    | Raises (OtherException _) => Returned L94 MSG_UNKNOWN
    | Raises (NonException name) => Propagated (NonException name)
    end.
Proof.
  intros Hk Hfail Hstop.
  pose proof (for_attempts_schedule m p k 0%nat initial_world) as H.
  pose proof (for_attempts_steps m p k 0%nat initial_world) as Hst.
  unfold gateway, generate_response_with_retry.
  rewrite Nat.sub_0_r in H, Hst.
  destruct (for_attempts m p (seq 0 MAX_RETRIES) initial_world) as [r w'].
  simpl in H, Hst.
  specialize (H Hk Hfail Hstop). specialize (Hst Hk Hfail Hstop).
  destruct H as (Hs & Hg & Ht). destruct Hst as (Hr & Hsteps).
  split; [exact Hs |]. split; [exact Hg |]. split; [exact Ht |].
  split; [exact Hsteps | exact Hr].
Qed.

(** The client that fails twice and then answers "hi": three calls with
    sleeps of 1 and 2 between them, and "hi" returned.  The client that
    always fails: the same calls and sleeps, and the fallback of line 87
    returned after the third call. *)
Lemma backoff_schedule_witness :
  ((2 < MAX_RETRIES)%nat /\
   (forall i, (i < 2)%nat -> retried (fail_twice_then_hi i "q") = true) /\
   (retried (fail_twice_then_hi 2%nat "q") = false \/ 2%nat = (MAX_RETRIES - 1)%nat)) /\
  sleeps (trace (snd (gateway (Some fail_twice_then_hi) "q"))) = [1; 2] /\
  generate_calls (trace (snd (gateway (Some fail_twice_then_hi) "q")))
    = ["q"; "q"; "q"] /\
  fst (gateway (Some fail_twice_then_hi) "q") = Returned L73 "hi" /\
  steps (trace (snd (gateway (Some fail_twice_then_hi) "q")))
    = [EvGenerate "q"; EvSleep 1; EvGenerate "q"; EvSleep 2; EvGenerate "q"] /\
  steps (trace (snd (gateway (Some always_api_error) "q")))
    = [EvGenerate "q"; EvSleep 1; EvGenerate "q"; EvSleep 2; EvGenerate "q"] /\
  fst (gateway (Some always_api_error) "q") = Returned L87 MSG_TECHNICAL.
Proof.
  assert (H1 : (2 < MAX_RETRIES)%nat) by (unfold MAX_RETRIES; lia).
  assert (H2 : forall i, (i < 2)%nat -> retried (fail_twice_then_hi i "q") = true).
  { intros [| [| i]] Hi; [reflexivity | reflexivity | lia]. }
  assert (H3 : retried (fail_twice_then_hi 2%nat "q") = false \/
               2%nat = (MAX_RETRIES - 1)%nat) by (left; reflexivity).
  assert (H2' : forall i, (i < 2)%nat -> retried (always_api_error i "q") = true).
  { intros i Hi. reflexivity. }
  assert (H3' : retried (always_api_error 2%nat "q") = false \/
                2%nat = (MAX_RETRIES - 1)%nat) by (right; reflexivity).
  split; [auto |].
  destruct (backoff_schedule fail_twice_then_hi "q" 2%nat H1 H2 H3)
    as (Hs & Hg & _ & Hst & Hr).
  destruct (backoff_schedule always_api_error "q" 2%nat H1 H2' H3')
    as (_ & _ & _ & Hst' & Hr').
  split; [exact Hs |]. split; [exact Hg |]. split; [exact Hr |].
  split; [exact Hst |]. split; [exact Hst' | exact Hr'].
Defined.

(** ** The dialogue router *)

(** C6. For a language code among [LANG_AMHARIC] and [LANG_ENGLISH], the
    language callback stores the code for the user, and the about
    callback of the same user that follows answers the query and sends
    one message, the about text in that language. *)
Theorem about_follows_selection
    (code : string) (uid chat1 chat2 : Z) (name1 name2 : string) (w : world) :
  code = LANG_AMHARIC \/ code = LANG_ENGLISH ->
  let w1 := snd (handle_callback uid chat1 name1 (Some code) w) in
  let w2 := snd (handle_callback uid chat2 name2 (Some ACTION_ABOUT) w1) in
  stored_lang w1 uid = Some code /\
  exists text,
    trace w2 = trace w1 ++ [EvAnswer; EvSendMessage chat2 text] /\
    (code = LANG_AMHARIC -> text = ABOUT_TEXT_AM) /\
    (code = LANG_ENGLISH -> text = ABOUT_TEXT_EN).
Proof.
  intros [-> | ->]; cbv zeta; unfold handle_callback, stored_lang;
    cbv [bind ret emit user_data user_data_set]; simpl;
    rewrite !lookup_insert_eq; simpl; rewrite !lookup_insert_eq; simpl.
  - split; [reflexivity |]. exists ABOUT_TEXT_AM.
    rewrite <- app_assoc. repeat split; auto. discriminate.
  - split; [reflexivity |]. exists ABOUT_TEXT_EN.
    rewrite <- app_assoc. repeat split; auto. discriminate.
Qed.

Lemma about_follows_selection_witness :
  (LANG_ENGLISH = LANG_AMHARIC \/ LANG_ENGLISH = LANG_ENGLISH) /\
  let w1 := snd (handle_callback 7 70 "Sara" (Some LANG_ENGLISH) initial_world) in
  let w2 := snd (handle_callback 7 70 "Sara" (Some ACTION_ABOUT) w1) in
  stored_lang w1 7 = Some LANG_ENGLISH /\
  exists text,
    trace w2 = trace w1 ++ [EvAnswer; EvSendMessage 70 text] /\
    (LANG_ENGLISH = LANG_AMHARIC -> text = ABOUT_TEXT_AM) /\
    (LANG_ENGLISH = LANG_ENGLISH -> text = ABOUT_TEXT_EN).
Proof.
  split; [right; reflexivity |].
  exact (about_follows_selection LANG_ENGLISH 7 70 70 "Sara" "Sara" initial_world
           (or_intror eq_refl)).
Defined.

(** C7. For a user without a session entry, the about callback answers
    the query and sends the Amharic about text, the default.  It creates
    and changes no language preference, for this user or any other: the
    language stored for every user is what it was.  (The read of
    [context.user_data] leaves an empty dictionary for the user, which
    holds no language.) *)
Theorem about_defaults_to_amharic (uid chat_id : Z) (name : string) (w : world) :
  sessions w !! uid = None ->
  handle_callback uid chat_id name (Some ACTION_ABOUT) w =
    (tt, World (<[uid := ∅]> (sessions w)) (ncalls w)
           (trace w ++ [EvAnswer; EvSendMessage chat_id ABOUT_TEXT_AM])) /\
  forall u,
    stored_lang (snd (handle_callback uid chat_id name (Some ACTION_ABOUT) w)) u
      = stored_lang w u.
Proof.
  intros Hnone.
  assert (Heq : handle_callback uid chat_id name (Some ACTION_ABOUT) w =
    (tt, World (<[uid := ∅]> (sessions w)) (ncalls w)
           (trace w ++ [EvAnswer; EvSendMessage chat_id ABOUT_TEXT_AM]))).
  { unfold handle_callback.
    cbv [bind ret emit user_data user_data_set]; simpl.
    rewrite Hnone. simpl. rewrite lookup_empty. simpl.
    rewrite <- app_assoc. reflexivity. }
  split; [exact Heq |].
  intros u. rewrite Heq. unfold stored_lang. simpl.
  destruct (decide (uid = u)) as [<- | Hne].
  - rewrite lookup_insert_eq, Hnone. simpl. apply lookup_empty.
  - rewrite lookup_insert_ne by exact Hne. reflexivity.
Qed.

Lemma about_defaults_to_amharic_witness :
  sessions initial_world !! 7 = None /\
  handle_callback 7 70 "Sara" (Some ACTION_ABOUT) initial_world =
    (tt, World (<[7 := ∅]> ∅) 0 [EvAnswer; EvSendMessage 70 ABOUT_TEXT_AM]) /\
  forall u,
    stored_lang (snd (handle_callback 7 70 "Sara" (Some ACTION_ABOUT) initial_world)) u
      = stored_lang initial_world u.
Proof.
  split; [reflexivity |].
  exact (about_defaults_to_amharic 7 70 "Sara" initial_world eq_refl).
Defined.

(** C8. For callback data that is none of [LANG_AMHARIC], [LANG_ENGLISH]
    and [ACTION_ABOUT] (absent data included), the handler ends normally;
    answering the query, which is not a message, is all it does: no
    message goes out and the sessions are what they were. *)
Theorem unknown_callback_ignored
    (uid chat_id : Z) (name : string) (data : option string) (w : world) :
  data <> Some LANG_AMHARIC ->
  data <> Some LANG_ENGLISH ->
  data <> Some ACTION_ABOUT ->
  handle_callback uid chat_id name data w =
    (tt, World (sessions w) (ncalls w) (trace w ++ [EvAnswer])) /\
  is_message EvAnswer = false.
Proof.
  intros Ham Hen Hab. split; [| reflexivity].
  unfold handle_callback. cbv [bind ret emit]. simpl.
  destruct data as [d |]; [| reflexivity].
  destruct (String.eqb_spec d LANG_AMHARIC) as [-> | _]; [congruence |].
  destruct (String.eqb_spec d LANG_ENGLISH) as [-> | _]; [congruence |].
  destruct (String.eqb_spec d ACTION_ABOUT) as [-> | _]; [congruence |].
  reflexivity.
Qed.

Lemma unknown_callback_ignored_witness :
  (Some "DELETE_ALL" <> Some LANG_AMHARIC /\
   Some "DELETE_ALL" <> Some LANG_ENGLISH /\
   Some "DELETE_ALL" <> Some ACTION_ABOUT) /\
  handle_callback 7 70 "Sara" (Some "DELETE_ALL") initial_world =
    (tt, World ∅ 0 [EvAnswer]) /\
  is_message EvAnswer = false.
Proof.
  assert (H1 : Some "DELETE_ALL" <> Some LANG_AMHARIC) by discriminate.
  assert (H2 : Some "DELETE_ALL" <> Some LANG_ENGLISH) by discriminate.
  assert (H3 : Some "DELETE_ALL" <> Some ACTION_ABOUT) by discriminate.
  split; [auto |].
  exact (unknown_callback_ignored 7 70 "Sara" (Some "DELETE_ALL") initial_world
           H1 H2 H3).
Defined.

(** ** The stored language *)

Lemma generate_sessions (model : option client) (p : string) (w : world) :
  sessions (snd (generate_response_with_retry model p w)) = sessions w.
Proof.
  destruct model as [m |]; [| reflexivity].
  apply (for_attempts_sessions m p (seq 0 MAX_RETRIES) w).
Qed.

Lemma handle_message_sessions
    (model : option client) (chat_id : Z) (text : option string) (w : world) :
  sessions (snd (handle_message model chat_id text w)) = sessions w.
Proof.
  unfold handle_message.
  destruct text as [user_text |]; [| reflexivity].
  destruct (is_empty user_text); [reflexivity |].
  cbv [bind emit ret].
  pose proof (generate_sessions model user_text
    (World (sessions w) (ncalls w) (trace w ++ [EvChatAction chat_id "typing"])))
    as Hs.
  destruct (generate_response_with_retry model user_text _) as [[site t | e] w'];
    simpl in *; exact Hs.
Qed.

Lemma existsb_lang (d : string) :
  existsb (String.eqb d) [LANG_AMHARIC; LANG_ENGLISH] = true <->
  d = LANG_AMHARIC \/ d = LANG_ENGLISH.
Proof.
  simpl. rewrite !orb_true_iff, !String.eqb_eq. intuition discriminate.
Qed.

(** The store after a callback, as a function of the data: line 119
    writes the code into the dictionary of the user, line 139 only reads
    it (which leaves the dictionary in the store, empty if it is new),
    and any other data does not touch the store. *)
Lemma handle_callback_sessions_eq
    (uid chat_id : Z) (name : string) (data : option string) (w : world) :
  sessions (snd (handle_callback uid chat_id name data w)) =
    let ud := default ∅ (sessions w !! uid) in
    match data with
    | Some d =>
        if existsb (String.eqb d) [LANG_AMHARIC; LANG_ENGLISH]
        then <[uid := <["lang" := d]> ud]> (sessions w)
        else if String.eqb d ACTION_ABOUT
             then <[uid := ud]> (sessions w)
             else sessions w
    | None => sessions w
    end.
Proof.
  unfold handle_callback. cbv [bind ret emit user_data user_data_set].
  destruct data as [d |]; [| reflexivity].
  destruct (existsb (String.eqb d) [LANG_AMHARIC; LANG_ENGLISH]).
  - destruct (String.eqb d LANG_AMHARIC); simpl; apply insert_insert_eq.
  - destruct (String.eqb d ACTION_ABOUT); reflexivity.
Qed.

(** The only write of a language is line 119: after a callback the
    language stored for user [u] is the data when the callback is a
    language selection by [u], and what it was otherwise. *)
Lemma handle_callback_stored_lang
    (uid chat_id : Z) (name : string) (data : option string) (w : world) (u : Z) :
  stored_lang (snd (handle_callback uid chat_id name data w)) u =
    if selects_language u (InvCallback uid chat_id name data)
    then data
    else stored_lang w u.
Proof.
  unfold stored_lang, selects_language.
  rewrite handle_callback_sessions_eq. cbv zeta.
  destruct data as [d |]; [| reflexivity].
  destruct (existsb (String.eqb d) [LANG_AMHARIC; LANG_ENGLISH]).
  - rewrite andb_true_r. destruct (Z.eqb_spec uid u) as [-> | Hne].
    + rewrite lookup_insert_eq. simpl. apply lookup_insert_eq.
    + rewrite lookup_insert_ne by exact Hne. reflexivity.
  - rewrite andb_false_r.
    destruct (String.eqb d ACTION_ABOUT); [| reflexivity].
    destruct (decide (uid = u)) as [-> | Hne].
    + rewrite lookup_insert_eq. destruct (sessions w !! u); reflexivity.
    + rewrite lookup_insert_ne by exact Hne. reflexivity.
Qed.

Lemma invoke_sessions_valid (model : option client) (w : world) (i : invocation) :
  sessions_valid w -> sessions_valid (invoke model w i).
Proof.
  intros Hv uid'. specialize (Hv uid').
  destruct i as [| uid chat_id name data | chat_id text]; simpl.
  - exact Hv.
  - rewrite handle_callback_stored_lang.
    destruct (selects_language uid' (InvCallback uid chat_id name data)) eqn:Hsel;
      [| exact Hv].
    destruct data as [d |]; [| discriminate].
    simpl in Hsel. apply andb_true_iff in Hsel as [_ Hd].
    change (existsb (String.eqb d) [LANG_AMHARIC; LANG_ENGLISH] = true) in Hd.
    apply existsb_lang in Hd. unfold valid_lang. destruct Hd as [-> | ->]; auto.
  - unfold stored_lang in *. rewrite handle_message_sessions. exact Hv.
Qed.

Lemma fold_invoke_sessions_valid (model : option client) (invs : list invocation) :
  forall w, sessions_valid w -> sessions_valid (fold_left (invoke model) invs w).
Proof.
  induction invs as [| i rest IH]; intros w Hv; simpl; [exact Hv |].
  apply IH. apply invoke_sessions_valid. exact Hv.
Qed.

(** C10. After any sequence of handler runs from a fresh process, and
    whatever the client does, the language stored for a user is absent
    or one of [LANG_AMHARIC], [LANG_ENGLISH]; it is never
    [ACTION_ABOUT]. *)
Theorem stored_language_valid
    (model : option client) (invs : list invocation) (uid : Z) :
  valid_lang (stored_lang (run_all model invs) uid) /\
  stored_lang (run_all model invs) uid <> Some ACTION_ABOUT.
Proof.
  assert (Hv : valid_lang (stored_lang (run_all model invs) uid)).
  { apply fold_invoke_sessions_valid. intros u. left. unfold stored_lang.
    simpl. rewrite lookup_empty. reflexivity. }
  split; [exact Hv |].
  destruct Hv as [-> | [-> | ->]]; discriminate.
Qed.

(** * Further properties of the gateway *)

Lemma messages_app (t1 t2 : list event) :
  messages (t1 ++ t2) = messages t1 ++ messages t2.
Proof. unfold messages. apply List.filter_app. Qed.

Lemma answers_app (t1 t2 : list event) :
  answers (t1 ++ t2) = answers t1 ++ answers t2.
Proof. unfold answers. apply List.filter_app. Qed.

Lemma offered_app (t1 t2 : list event) :
  offered (t1 ++ t2) = offered t1 ++ offered t2.
Proof. unfold offered. apply flat_map_app. Qed.

(** Internal effects carry no message, no answer, no button. *)
Lemma internal_silent (evs : list event) :
  forallb is_internal evs = true ->
  messages evs = [] /\ answers evs = [] /\ offered evs = [].
Proof.
  induction evs as [| e evs IH]; simpl; [auto |].
  intros H. apply andb_true_iff in H as [He Hevs].
  destruct (IH Hevs) as (Hm & Ha & Ho).
  destruct e; simpl in *; try discriminate; auto.
Qed.

Lemma loop_body_appends (m : client) (p : string) (a : nat) (w : world) :
  exists evs,
    trace (snd (loop_body m p a w)) = trace w ++ evs /\
    forallb is_internal evs = true.
Proof.
  step_body.
  destruct (m (ncalls w) p) as [text | [ | msg | msg | name]]; simpl.
  - destruct (is_empty text); simpl;
      [destruct (a <? 2)%nat; simpl |];
      rewrite <- ?app_assoc; eexists; split; reflexivity.
  - eexists; split; reflexivity.
  - destruct (contains _ msg); simpl;
      [| destruct (a <? 2)%nat; simpl];
      rewrite <- ?app_assoc; eexists; split; reflexivity.
  - destruct (a <? 2)%nat; simpl;
      rewrite <- ?app_assoc; eexists; split; reflexivity.
  - eexists; split; reflexivity.
Qed.

Lemma for_attempts_appends (m : client) (p : string) (attempts : list nat) :
  forall w, exists evs,
    trace (snd (for_attempts m p attempts w)) = trace w ++ evs /\
    forallb is_internal evs = true.
Proof.
  induction attempts as [| a rest IH]; intros w; simpl.
  - exists []. rewrite app_nil_r. auto.
  - unfold bind. destruct (loop_body_appends m p a w) as (evs & Ht & Hi).
    destruct (loop_body m p a w) as [[ | site text | e] w1]; simpl in *;
      try (exists evs; auto; fail).
    destruct (IH w1) as (evs' & Ht' & Hi').
    exists (evs ++ evs'). rewrite Ht', Ht, app_assoc. split; [reflexivity |].
    rewrite forallb_app, Hi, Hi'. reflexivity.
Qed.

Lemma generate_appends (model : option client) (p : string) (w : world) :
  exists evs,
    trace (snd (generate_response_with_retry model p w)) = trace w ++ evs /\
    forallb is_internal evs = true.
Proof.
  destruct model as [m |].
  - apply (for_attempts_appends m p (seq 0 MAX_RETRIES) w).
  - exists []. simpl. rewrite app_nil_r. auto.
Qed.

(** X1. The gateway, whatever the client does, sends no message and
    answers no query itself, shows no button, and leaves every session as
    it was: its effects are calls, sleeps and log records only. *)
Theorem gateway_sends_nothing (model : option client) (p : string) (w : world) :
  let w' := snd (generate_response_with_retry model p w) in
  sessions w' = sessions w /\
  messages (trace w') = messages (trace w) /\
  answers (trace w') = answers (trace w) /\
  offered (trace w') = offered (trace w) /\
  exists evs, trace w' = trace w ++ evs /\ forallb is_internal evs = true.
Proof.
  cbv zeta. split; [apply generate_sessions |].
  destruct (generate_appends model p w) as (evs & Heq & Hi).
  destruct (internal_silent evs Hi) as (Hm & Ha & Ho).
  rewrite Heq, messages_app, answers_app, offered_app, Hm, Ha, Ho, !app_nil_r.
  repeat split; auto. exists evs. auto.
Qed.

(** After [k] retried failures the loop stands at attempt [a + k], having
    made [k] calls and slept [2 ** a], ..., [2 ** (a + k - 1)]. *)
Lemma retried_prefix (m : client) (p : string) :
  forall (k a : nat) (w : world),
    (a + k < MAX_RETRIES)%nat ->
    (forall i, (i < k)%nat -> retried (m (ncalls w + i)%nat p) = true) ->
    exists w1,
      for_attempts m p (seq a (MAX_RETRIES - a)) w =
        for_attempts m p (seq (a + k) (MAX_RETRIES - (a + k))) w1 /\
      ncalls w1 = (ncalls w + k)%nat /\
      sleeps (trace w1) =
        sleeps (trace w) ++ map (fun i => 2 ^ Z.of_nat i) (seq a k) /\
      generate_calls (trace w1) = generate_calls (trace w) ++ repeat p k.
Proof.
  induction k as [| k IH]; intros a w Hlt Hfail.
  - exists w. rewrite !Nat.add_0_r, !app_nil_r. auto.
  - rewrite (seq_attempts a) by lia. cbn [for_attempts]. unfold bind.
    destruct (attempt_retried m p a w) as (w0 & -> & Hn & Hs & Hg).
    { specialize (Hfail 0%nat). rewrite Nat.add_0_r in Hfail. apply Hfail. lia. }
    { unfold MAX_RETRIES in *. lia. }
    destruct (IH (S a) w0) as (w1 & Heq & Hn1 & Hs1 & Hg1).
    + lia.
    + intros i Hi. rewrite Hn.
      replace (S (ncalls w) + i)%nat with (ncalls w + S i)%nat by lia.
      apply Hfail. lia.
    + exists w1. replace (a + S k)%nat with (S a + k)%nat by lia.
      split; [exact Heq |]. split; [lia |].
      rewrite Hs1, Hs, Hg1, Hg, <- !app_assoc. auto.
Qed.

Lemma generate_after_prefix (m : client) (p : string) (k : nat) (w : world) :
  (k < MAX_RETRIES)%nat ->
  (forall i, (i < k)%nat -> retried (m (ncalls w + i)%nat p) = true) ->
  exists w1,
    generate_response_with_retry (Some m) p w =
      for_attempts m p (k :: seq (S k) (MAX_RETRIES - S k)) w1 /\
    ncalls w1 = (ncalls w + k)%nat /\
    sleeps (trace w1) =
      sleeps (trace w) ++ map (fun i => 2 ^ Z.of_nat i) (seq 0 k) /\
    generate_calls (trace w1) = generate_calls (trace w) ++ repeat p k.
Proof.
  intros Hk Hfail.
  destruct (retried_prefix m p k 0%nat w) as (w1 & Heq & H); [lia | exact Hfail |].
  exists w1. split; [| exact H].
  unfold generate_response_with_retry.
  rewrite Nat.sub_0_r in Heq. rewrite Heq. simpl (0 + k)%nat.
  rewrite (seq_attempts k) by exact Hk. reflexivity.
Qed.

Lemma repeat_snoc (p : string) (k : nat) : repeat p k ++ [p] = repeat p (S k).
Proof. symmetry. apply repeat_cons. Qed.

(** X2. Every run with a configured client makes between one and
    [MAX_RETRIES] = 3 calls, all of them with the prompt it was given,
    and sleeps once between two calls and nowhere else: with [k + 1]
    calls the sleeps are [2 ** 0], ..., [2 ** (k - 1)], three seconds in
    all at most. *)
Theorem calls_and_sleeps_bounded (m : client) (p : string) (w : world) :
  exists k, (k < MAX_RETRIES)%nat /\
    let w' := snd (generate_response_with_retry (Some m) p w) in
    generate_calls (trace w') = generate_calls (trace w) ++ repeat p (S k) /\
    sleeps (trace w') =
      sleeps (trace w) ++ map (fun i => 2 ^ Z.of_nat i) (seq 0 k).
Proof.
  assert (Hsch : forall k, (k < MAX_RETRIES)%nat ->
    (forall i, (i < k)%nat -> retried (m (ncalls w + i)%nat p) = true) ->
    (retried (m (ncalls w + k)%nat p) = false \/ k = (MAX_RETRIES - 1)%nat) ->
    let w' := snd (generate_response_with_retry (Some m) p w) in
    generate_calls (trace w') = generate_calls (trace w) ++ repeat p (S k) /\
    sleeps (trace w') =
      sleeps (trace w) ++ map (fun i => 2 ^ Z.of_nat i) (seq 0 k)).
  { intros k Hk Hfail Hstop.
    pose proof (for_attempts_schedule m p k 0%nat w) as H.
    rewrite Nat.sub_0_r in H. cbv zeta. unfold generate_response_with_retry.
    destruct (for_attempts m p (seq 0 MAX_RETRIES) w) as [r w'].
    simpl in *. destruct H as (Hs & Hg & _); auto. }
  destruct (retried (m (ncalls w + 0)%nat p)) eqn:H0.
  - destruct (retried (m (ncalls w + 1)%nat p)) eqn:H1.
    + exists 2%nat. split; [unfold MAX_RETRIES; lia |].
      apply Hsch; [unfold MAX_RETRIES; lia | | right; reflexivity].
      intros [| [| i]] Hi; [exact H0 | exact H1 | lia].
    + exists 1%nat. split; [unfold MAX_RETRIES; lia |].
      apply Hsch; [unfold MAX_RETRIES; lia | | left; exact H1].
      intros [| i] Hi; [exact H0 | lia].
  - exists 0%nat. split; [unfold MAX_RETRIES; lia |].
    apply Hsch; [unfold MAX_RETRIES; lia | | left; exact H0].
    intros i Hi. lia.
Qed.

(** X3. A quota error stops the retries at whatever attempt it comes:
    after [k] retried failures, [ResourceExhaustedError] at call [k]
    makes the function return the daily-limit text at line 76, after
    [k + 1] calls and without a sleep after the last one. *)
Theorem quota_stops_retries (m : client) (p : string) (k : nat) (w : world) :
  (k < MAX_RETRIES)%nat ->
  (forall i, (i < k)%nat -> retried (m (ncalls w + i)%nat p) = true) ->
  m (ncalls w + k)%nat p = Raises ResourceExhaustedError ->
  fst (generate_response_with_retry (Some m) p w) = Returned L76 MSG_QUOTA /\
  let w' := snd (generate_response_with_retry (Some m) p w) in
  generate_calls (trace w') = generate_calls (trace w) ++ repeat p (S k) /\
  sleeps (trace w') =
    sleeps (trace w) ++ map (fun i => 2 ^ Z.of_nat i) (seq 0 k).
Proof.
  intros Hk Hfail Hq.
  destruct (generate_after_prefix m p k w Hk Hfail) as (w1 & -> & Hn & Hs & Hg).
  cbn [for_attempts]. step_body. rewrite Hn, Hq. simpl.
  split; [reflexivity |]. read_trace.
  rewrite Hg, Hs, <- app_assoc, repeat_snoc. auto.
Qed.

Lemma quota_stops_retries_witness :
  ((2 < MAX_RETRIES)%nat /\
   (forall i, (i < 2)%nat ->
      retried (quota_on_third (ncalls initial_world + i)%nat "q") = true) /\
   quota_on_third (ncalls initial_world + 2)%nat "q"
     = Raises ResourceExhaustedError) /\
  fst (gateway (Some quota_on_third) "q") = Returned L76 MSG_QUOTA /\
  generate_calls (trace (snd (gateway (Some quota_on_third) "q")))
    = ["q"; "q"; "q"] /\
  sleeps (trace (snd (gateway (Some quota_on_third) "q"))) = [1; 2].
Proof.
  assert (H1 : (2 < MAX_RETRIES)%nat) by (unfold MAX_RETRIES; lia).
  assert (H2 : forall i, (i < 2)%nat ->
            retried (quota_on_third (ncalls initial_world + i)%nat "q") = true).
  { intros [| [| i]] Hi; [reflexivity | reflexivity | lia]. }
  split; [auto |].
  exact (quota_stops_retries quota_on_third "q" 2%nat initial_world H1 H2 eq_refl).
Defined.

(** X4. So does an invalid key: after [k] retried failures, an
    [APIError] whose text contains "API key not valid" at call [k] makes
    the function return the invalid-key text at line 81, after [k + 1]
    calls and without a sleep after the last one. *)
Theorem invalid_key_stops_retries
    (m : client) (p msg : string) (k : nat) (w : world) :
  (k < MAX_RETRIES)%nat ->
  (forall i, (i < k)%nat -> retried (m (ncalls w + i)%nat p) = true) ->
  m (ncalls w + k)%nat p = Raises (APIError msg) ->
  contains "API key not valid" msg = true ->
  fst (generate_response_with_retry (Some m) p w) = Returned L81 MSG_INVALID_KEY /\
  let w' := snd (generate_response_with_retry (Some m) p w) in
  generate_calls (trace w') = generate_calls (trace w) ++ repeat p (S k) /\
  sleeps (trace w') =
    sleeps (trace w) ++ map (fun i => 2 ^ Z.of_nat i) (seq 0 k).
Proof.
  intros Hk Hfail Ho Hkey.
  destruct (generate_after_prefix m p k w Hk Hfail) as (w1 & -> & Hn & Hs & Hg).
  cbn [for_attempts]. step_body. rewrite Hn, Ho, Hkey. simpl.
  split; [reflexivity |]. read_trace.
  rewrite Hg, Hs, <- app_assoc, repeat_snoc. auto.
Qed.

Lemma invalid_key_stops_retries_witness :
  ((1 < MAX_RETRIES)%nat /\
   (forall i, (i < 1)%nat ->
      retried (bad_key_on_second (ncalls initial_world + i)%nat "q") = true) /\
   bad_key_on_second (ncalls initial_world + 1)%nat "q"
     = Raises (APIError "400 API key not valid.") /\
   contains "API key not valid" "400 API key not valid." = true) /\
  fst (gateway (Some bad_key_on_second) "q") = Returned L81 MSG_INVALID_KEY /\
  generate_calls (trace (snd (gateway (Some bad_key_on_second) "q")))
    = ["q"; "q"] /\
  sleeps (trace (snd (gateway (Some bad_key_on_second) "q"))) = [1].
Proof.
  assert (H1 : (1 < MAX_RETRIES)%nat) by (unfold MAX_RETRIES; lia).
  assert (H2 : forall i, (i < 1)%nat ->
            retried (bad_key_on_second (ncalls initial_world + i)%nat "q") = true).
  { intros [| i] Hi; [reflexivity | lia]. }
  split; [repeat split; auto |].
  exact (invalid_key_stops_retries bad_key_on_second "q" _ 1%nat initial_world
           H1 H2 eq_refl eq_refl).
Defined.

(** X5. When all three attempts are retried failures, the third alone
    chooses the fallback: the technical-issue text of line 87 when it is
    an [APIError], the unknown-error text of line 94 when it is an empty
    text or another [Exception], whatever the first two were.  Three
    calls were made and the sleeps were 1 and 2. *)
Theorem exhausted_reply_follows_last_failure (m : client) (p : string) (w : world) :
  (forall i, (i < MAX_RETRIES)%nat -> retried (m (ncalls w + i)%nat p) = true) ->
  fst (generate_response_with_retry (Some m) p w) =
    match m (ncalls w + 2)%nat p with
    | Raises (APIError _) => Returned L87 MSG_TECHNICAL
    | _ => Returned L94 MSG_UNKNOWN
    end /\
  let w' := snd (generate_response_with_retry (Some m) p w) in
  generate_calls (trace w') = generate_calls (trace w) ++ [p; p; p] /\
  sleeps (trace w') = sleeps (trace w) ++ [1; 2].
Proof.
  intros Hfail.
  assert (H2 : (2 < MAX_RETRIES)%nat) by (unfold MAX_RETRIES; lia).
  destruct (generate_after_prefix m p 2%nat w H2) as (w1 & -> & Hn & Hs & Hg).
  { intros i Hi. apply Hfail. unfold MAX_RETRIES. lia. }
  specialize (Hfail 2%nat H2).
  cbn [for_attempts]. step_body. rewrite Hn.
  destruct (m (ncalls w + 2)%nat p) as [text | [ | msg | msg | name]];
    simpl in Hfail; try discriminate.
  - rewrite Hfail. simpl. split; [reflexivity |]. read_trace.
    rewrite Hg, Hs, <- app_assoc. auto.
  - apply negb_true_iff in Hfail. rewrite Hfail. simpl.
    split; [reflexivity |]. read_trace. rewrite Hg, Hs, <- app_assoc. auto.
  - simpl. split; [reflexivity |]. read_trace.
    rewrite Hg, Hs, <- app_assoc. auto.
Qed.

Lemma exhausted_reply_follows_last_failure_witness :
  (forall i, (i < MAX_RETRIES)%nat ->
     retried (api_error_last (ncalls initial_world + i)%nat "q") = true) /\
  fst (gateway (Some api_error_last) "q") = Returned L87 MSG_TECHNICAL /\
  generate_calls (trace (snd (gateway (Some api_error_last) "q")))
    = ["q"; "q"; "q"] /\
  sleeps (trace (snd (gateway (Some api_error_last) "q"))) = [1; 2].
Proof.
  assert (H : forall i, (i < MAX_RETRIES)%nat ->
            retried (api_error_last (ncalls initial_world + i)%nat "q") = true).
  { unfold MAX_RETRIES.
    intros [| [| [| i]]] Hi; [reflexivity | reflexivity | reflexivity | lia]. }
  split; [exact H |].
  exact (exhausted_reply_follows_last_failure api_error_last "q" initial_world H).
Defined.

(** * Further properties of the router *)

Lemma loop_body_one_call (m : client) (p : string) (a : nat) (w : world) :
  generate_calls (trace (snd (loop_body m p a w))) =
    generate_calls (trace w) ++ [p].
Proof.
  step_body.
  destruct (m (ncalls w) p) as [text | [ | msg | msg | name]]; simpl.
  - destruct (is_empty text); simpl;
      [destruct (a <? 2)%nat; simpl |]; read_trace; reflexivity.
  - read_trace; reflexivity.
  - destruct (contains _ msg); simpl;
      [| destruct (a <? 2)%nat; simpl]; read_trace; reflexivity.
  - destruct (a <? 2)%nat; simpl; read_trace; reflexivity.
  - read_trace; reflexivity.
Qed.

Lemma for_attempts_calls_le (m : client) (p : string) (attempts : list nat) :
  forall w,
    (length (generate_calls (trace (snd (for_attempts m p attempts w))))
     <= length (generate_calls (trace w)) + length attempts)%nat.
Proof.
  induction attempts as [| a rest IH]; intros w; simpl; [lia |].
  unfold bind. pose proof (loop_body_one_call m p a w) as Hc.
  destruct (loop_body m p a w) as [[ | site text | e] w1]; simpl in *.
  - specialize (IH w1). rewrite Hc, length_app in IH. simpl in IH. lia.
  - rewrite Hc, length_app. simpl. lia.
  - rewrite Hc, length_app. simpl. lia.
Qed.

Lemma generate_calls_le (model : option client) (p : string) (w : world) :
  (length (generate_calls (trace (snd (generate_response_with_retry model p w))))
   <= length (generate_calls (trace w)) + MAX_RETRIES)%nat.
Proof.
  destruct model as [m |]; simpl generate_response_with_retry.
  - pose proof (for_attempts_calls_le m p (seq 0 MAX_RETRIES) w) as H.
    rewrite length_seq in H. exact H.
  - simpl. lia.
Qed.

Lemma generate_returns (model : option client) (p : string) (w : world) :
  model_raises_only_exceptions model p ->
  exists site r,
    fst (generate_response_with_retry model p w) = Returned site r /\ r <> "".
Proof.
  destruct model as [m |]; intros Hexc.
  - apply (for_attempts_returns m p (seq 0 MAX_RETRIES) Hexc w).
  - exists L65, MSG_NO_MODEL. split; [reflexivity | discriminate].
Qed.

Lemma generate_quiet (model : option client) (p : string) (w : world) :
  sessions (snd (generate_response_with_retry model p w)) = sessions w /\
  messages (trace (snd (generate_response_with_retry model p w)))
    = messages (trace w) /\
  answers (trace (snd (generate_response_with_retry model p w)))
    = answers (trace w) /\
  offered (trace (snd (generate_response_with_retry model p w)))
    = offered (trace w).
Proof.
  split; [apply generate_sessions |].
  destruct (generate_appends model p w) as (evs & -> & Hi).
  destruct (internal_silent evs Hi) as (Hm & Ha & Ho).
  rewrite messages_app, answers_app, offered_app, Hm, Ha, Ho, !app_nil_r.
  auto.
Qed.

(** What [handle_message] does with a text that is not empty: the typing
    action, the run of the gateway, and the reply when it returned. *)
Lemma handle_message_shape
    (model : option client) (chat_id : Z) (t : string) (w : world) :
  is_empty t = false ->
  let w0 := World (sessions w) (ncalls w)
                  (trace w ++ [EvChatAction chat_id "typing"]) in
  handle_message model chat_id (Some t) w =
    match generate_response_with_retry model t w0 with
    | (Returned _ r, w1) =>
        (None, World (sessions w1) (ncalls w1) (trace w1 ++ [EvReplyText r None]))
    | (Propagated e, w1) => (Some e, w1)
    end.
Proof.
  intros He. unfold handle_message. rewrite He. cbv [bind emit ret].
  destruct (generate_response_with_retry model t _) as [[site r | e] w1];
    reflexivity.
Qed.

(** X7. A text message gets one reply.  When the text is not empty and
    the client fails only with [Exception]s, the handler ends normally,
    the one message it sends is the text the gateway returned, unchanged
    and not empty, sent after the gateway is done; the sessions are what
    they were. *)
Theorem text_message_gets_one_reply
    (model : option client) (chat_id : Z) (t : string) (w : world) :
  t <> "" ->
  model_raises_only_exceptions model t ->
  let w0 := World (sessions w) (ncalls w)
                  (trace w ++ [EvChatAction chat_id "typing"]) in
  exists site r w1,
    generate_response_with_retry model t w0 = (Returned site r, w1) /\
    r <> "" /\
    handle_message model chat_id (Some t) w =
      (None, World (sessions w) (ncalls w1) (trace w1 ++ [EvReplyText r None])) /\
    messages (trace w1 ++ [EvReplyText r None]) =
      messages (trace w) ++ [EvReplyText r None].
Proof.
  intros Ht Hexc w0.
  apply is_empty_false in Ht.
  rewrite (handle_message_shape model chat_id t w Ht). cbv zeta. fold w0.
  destruct (generate_returns model t w0 Hexc) as (site & r & Hr & Hne).
  pose proof (generate_quiet model t w0) as (Hs & Hm & _).
  destruct (generate_response_with_retry model t w0) as [res w1].
  simpl in Hr, Hs, Hm. subst res.
  exists site, r, w1. split; [reflexivity |]. split; [exact Hne |].
  split.
  - rewrite Hs. reflexivity.
  - rewrite messages_app, Hm, messages_app. simpl. rewrite app_nil_r. reflexivity.
Qed.

Lemma text_message_gets_one_reply_witness :
  ("hello" <> "" /\
   model_raises_only_exceptions (Some fail_twice_then_hi) "hello") /\
  let w0 := World (sessions initial_world) (ncalls initial_world)
                  (trace initial_world ++ [EvChatAction 70 "typing"]) in
  exists site r w1,
    generate_response_with_retry (Some fail_twice_then_hi) "hello" w0
      = (Returned site r, w1) /\
    r <> "" /\
    handle_message (Some fail_twice_then_hi) 70 (Some "hello") initial_world =
      (None, World (sessions initial_world) (ncalls w1)
                   (trace w1 ++ [EvReplyText r None])) /\
    messages (trace w1 ++ [EvReplyText r None]) =
      messages (trace initial_world) ++ [EvReplyText r None].
Proof.
  assert (H1 : "hello" <> "") by discriminate.
  assert (H2 : model_raises_only_exceptions (Some fail_twice_then_hi) "hello").
  { intros [| [| n]] name; discriminate. }
  split; [auto |].
  exact (text_message_gets_one_reply (Some fail_twice_then_hi) 70 "hello"
           initial_world H1 H2).
Defined.

(** X8. Without a configured client the bot still answers: a text that
    is not empty gets the typing action and then the configuration-error
    text of line 65 as its reply, and nothing else happens. *)
Theorem unconfigured_bot_replies_config_error (chat_id : Z) (t : string) (w : world) :
  t <> "" ->
  handle_message None chat_id (Some t) w =
    (None,
     World (sessions w) (ncalls w)
       ((trace w ++ [EvChatAction chat_id "typing"])
          ++ [EvReplyText MSG_NO_MODEL None])).
Proof.
  intros Ht. apply is_empty_false in Ht.
  rewrite (handle_message_shape None chat_id t w Ht). reflexivity.
Qed.

Lemma unconfigured_bot_replies_config_error_witness :
  "hello" <> "" /\
  handle_message None 70 (Some "hello") initial_world =
    (None,
     World ∅ 0 [EvChatAction 70 "typing"; EvReplyText MSG_NO_MODEL None]).
Proof.
  assert (H : "hello" <> "") by discriminate.
  split; [exact H |].
  exact (unconfigured_bot_replies_config_error 70 "hello" initial_world H).
Defined.

(** What a callback adds to the run: the answer to the query, then at
    most one message, which is the about text or the welcome text with
    its single about button; it never calls the model. *)
Lemma handle_callback_cases
    (uid chat_id : Z) (name : string) (data : option string) (w : world) :
  exists msgs,
    trace (snd (handle_callback uid chat_id name data w))
      = trace w ++ EvAnswer :: msgs /\
    ncalls (snd (handle_callback uid chat_id name data w)) = ncalls w /\
    (msgs = [] \/
     (exists text, msgs = [EvSendMessage chat_id text]) \/
     (exists text label,
        msgs = [EvEditMessageText text [[(label, ACTION_ABOUT)]]])).
Proof.
  unfold handle_callback. cbv [bind ret emit user_data user_data_set]. simpl.
  destruct data as [d |].
  - destruct (String.eqb d LANG_AMHARIC) eqn:Ham; simpl.
    { eexists. rewrite <- app_assoc. split; [reflexivity |].
      split; [reflexivity |]. right. right. eauto. }
    destruct (String.eqb d LANG_ENGLISH) eqn:Hen; simpl.
    { eexists. rewrite <- app_assoc. split; [reflexivity |].
      split; [reflexivity |]. right. right. eauto. }
    destruct (String.eqb d ACTION_ABOUT) eqn:Hab; simpl.
    { eexists. rewrite <- app_assoc. split; [reflexivity |].
      split; [reflexivity |]. right. left. eauto. }
    exists []. auto.
  - exists []. auto.
Qed.

Lemma invoke_calls_le (model : option client) (w : world) (i : invocation) :
  (length (generate_calls (trace (invoke model w i)))
   <= length (generate_calls (trace w))
      + (if is_text_message i then MAX_RETRIES else 0))%nat.
Proof.
  destruct i as [| uid chat_id name data | chat_id text]; simpl.
  - read_trace. lia.
  - destruct (handle_callback_cases uid chat_id name data w)
      as (msgs & -> & _ & Hm).
    rewrite generate_calls_app.
    destruct Hm as [-> | [(text & ->) | (text & label & ->)]];
      simpl; rewrite app_nil_r; lia.
  - destruct text as [t |]; [| simpl; lia].
    destruct (is_empty t) eqn:He.
    + unfold handle_message. rewrite He. simpl. lia.
    + rewrite (handle_message_shape model chat_id t w He). cbv zeta. simpl negb.
      cbn iota.
      pose proof (generate_calls_le model t
        (World (sessions w) (ncalls w)
               (trace w ++ [EvChatAction chat_id "typing"]))) as Hle.
      destruct (generate_response_with_retry model t _) as [[site r | e] w1];
        simpl in *; revert Hle; read_trace; lia.
Qed.

Lemma fold_invoke_calls_le (model : option client) (invs : list invocation) :
  forall w,
    (length (generate_calls (trace (fold_left (invoke model) invs w)))
     <= length (generate_calls (trace w))
        + MAX_RETRIES * length (List.filter is_text_message invs))%nat.
Proof.
  induction invs as [| i rest IH]; intros w; simpl; [lia |].
  specialize (IH (invoke model w i)).
  pose proof (invoke_calls_le model w i) as Hi.
  unfold MAX_RETRIES in *.
  destruct (is_text_message i); simpl length in *; lia.
Qed.

(** X9. The model is called for text messages only, and at most
    [MAX_RETRIES] = 3 times for each: after any sequence of handler
    runs, the number of calls made is at most three times the number of
    messages with a text that is not empty.  Commands and callbacks cost
    no call. *)
Theorem calls_bounded_by_messages (model : option client) (invs : list invocation) :
  (length (generate_calls (trace (run_all model invs)))
   <= MAX_RETRIES * length (List.filter is_text_message invs))%nat.
Proof.
  pose proof (fold_invoke_calls_le model invs initial_world) as H.
  simpl in H. exact H.
Qed.

(** X10. What a callback does to the stored languages, for any data: the
    language of every other user is left alone; the language of the
    user who pressed becomes the data when the data is one of the two
    language codes, replacing what was stored before, and is left alone
    otherwise; data that is none of the three codes does not touch the
    store at all. *)
Theorem callback_session_effect
    (uid chat_id : Z) (name : string) (data : option string) (w : world) :
  let w' := snd (handle_callback uid chat_id name data w) in
  (forall uid', uid' <> uid -> stored_lang w' uid' = stored_lang w uid') /\
  (forall code, data = Some code ->
     code = LANG_AMHARIC \/ code = LANG_ENGLISH ->
     stored_lang w' uid = Some code) /\
  (data <> Some LANG_AMHARIC -> data <> Some LANG_ENGLISH ->
     stored_lang w' uid = stored_lang w uid) /\
  (data <> Some LANG_AMHARIC -> data <> Some LANG_ENGLISH ->
   data <> Some ACTION_ABOUT ->
     sessions w' = sessions w).
Proof.
  cbv zeta. repeat split.
  - intros uid' Hne. rewrite handle_callback_stored_lang.
    destruct data as [d |]; [| reflexivity].
    simpl. destruct (Z.eqb_spec uid uid'); [congruence | reflexivity].
  - intros code -> Hcode. rewrite handle_callback_stored_lang.
    apply existsb_lang in Hcode. unfold selects_language.
    rewrite Hcode, Z.eqb_refl. reflexivity.
  - intros Ham Hen. rewrite handle_callback_stored_lang.
    destruct data as [d |]; [| reflexivity].
    unfold selects_language.
    destruct (existsb (String.eqb d) [LANG_AMHARIC; LANG_ENGLISH]) eqn:Hex.
    + apply existsb_lang in Hex. destruct Hex; congruence.
    + rewrite andb_false_r. reflexivity.
  - intros Ham Hen Hab. rewrite handle_callback_sessions_eq. cbv zeta.
    destruct data as [d |]; [| reflexivity].
    destruct (existsb (String.eqb d) [LANG_AMHARIC; LANG_ENGLISH]) eqn:Hex.
    + apply existsb_lang in Hex. destruct Hex; congruence.
    + destruct (String.eqb_spec d ACTION_ABOUT); [congruence | reflexivity].
Qed.

Lemma invoke_keeps_lang
    (model : option client) (uid : Z) (w : world) (i : invocation) :
  selects_language uid i = false ->
  stored_lang (invoke model w i) uid = stored_lang w uid.
Proof.
  intros Hsel.
  destruct i as [| uid' chat_id name data | chat_id text]; simpl.
  - reflexivity.
  - rewrite handle_callback_stored_lang, Hsel. reflexivity.
  - unfold stored_lang. rewrite handle_message_sessions. reflexivity.
Qed.

(** X11. A stored language stays until its user selects again: over any
    sequence of handler runs in which user [uid] presses no language
    button (text messages, /start, about requests, unknown callbacks,
    anything by other users), and whatever the client does, the language
    stored for [uid] is at the end what it was at the start. *)
Theorem language_kept_until_reselected
    (model : option client) (uid : Z) (invs : list invocation) (w : world) :
  existsb (selects_language uid) invs = false ->
  stored_lang (fold_left (invoke model) invs w) uid = stored_lang w uid.
Proof.
  revert w. induction invs as [| i rest IH]; intros w Hno; simpl; [reflexivity |].
  simpl in Hno. apply orb_false_iff in Hno as [Hi Hrest].
  rewrite (IH _ Hrest). apply invoke_keeps_lang. exact Hi.
Qed.

Lemma language_kept_until_reselected_witness :
  let invs :=
    [InvMessage 70 (Some "hello"); InvStart;
     InvCallback 7 70 "Sara" (Some ACTION_ABOUT);
     InvCallback 8 80 "Abel" (Some LANG_AMHARIC);
     InvCallback 7 70 "Sara" (Some "DELETE_ALL")] in
  let w := snd (handle_callback 7 70 "Sara" (Some LANG_ENGLISH) initial_world) in
  existsb (selects_language 7) invs = false /\
  stored_lang (fold_left (invoke (Some fail_twice_then_hi)) invs w) 7
    = stored_lang w 7.
Proof.
  intros invs w. split; [reflexivity |].
  exact (language_kept_until_reselected (Some fail_twice_then_hi) 7 invs w eq_refl).
Defined.

(** X12. The about request reads the stored language and writes none,
    in any state: it answers the query and sends one message, the
    Amharic about text when the stored language of the user is absent or
    [LANG_AMHARIC], the English one when it is [LANG_ENGLISH]; the
    language stored for every user and the call count are what they
    were.  All it leaves in the store is the dictionary it read, empty
    when the user had none. *)
Theorem about_reads_stored_language
    (uid chat_id : Z) (name : string) (w : world) :
  exists text,
    handle_callback uid chat_id name (Some ACTION_ABOUT) w =
      (tt, World (<[uid := default ∅ (sessions w !! uid)]> (sessions w))
                 (ncalls w)
                 (trace w ++ [EvAnswer; EvSendMessage chat_id text])) /\
    (stored_lang w uid = None \/ stored_lang w uid = Some LANG_AMHARIC ->
       text = ABOUT_TEXT_AM) /\
    (stored_lang w uid = Some LANG_ENGLISH -> text = ABOUT_TEXT_EN) /\
    (forall u,
       stored_lang (snd (handle_callback uid chat_id name (Some ACTION_ABOUT) w)) u
         = stored_lang w u).
Proof.
  assert (Hlang : forall u,
    stored_lang (snd (handle_callback uid chat_id name (Some ACTION_ABOUT) w)) u
      = stored_lang w u).
  { intros u. rewrite handle_callback_stored_lang. simpl.
    rewrite andb_false_r. reflexivity. }
  revert Hlang. unfold handle_callback, stored_lang.
  cbv [bind ret emit user_data user_data_set]. simpl.
  intros Hlang.
  destruct (sessions w !! uid) as [ud |]; simpl.
  - destruct (ud !! "lang") as [l |]; simpl.
    + destruct (String.eqb_spec l LANG_AMHARIC) as [-> | Hne].
      * exists ABOUT_TEXT_AM. rewrite <- app_assoc. repeat split; auto.
        discriminate.
      * exists ABOUT_TEXT_EN. rewrite <- app_assoc. repeat split; auto.
        intros [H | H]; congruence.
    + exists ABOUT_TEXT_AM. rewrite <- app_assoc. repeat split; auto.
      discriminate.
  - rewrite lookup_empty. simpl.
    exists ABOUT_TEXT_AM. rewrite <- app_assoc. repeat split; auto.
    discriminate.
Qed.

(** X13. Every callback is answered exactly once, whatever its data, and
    costs nothing else than at most one message: no call of the model,
    no sleep. *)
Theorem callback_answered_once
    (uid chat_id : Z) (name : string) (data : option string) (w : world) :
  let w' := snd (handle_callback uid chat_id name data w) in
  answers (trace w') = answers (trace w) ++ [EvAnswer] /\
  (length (messages (trace w')) <= S (length (messages (trace w))))%nat /\
  generate_calls (trace w') = generate_calls (trace w) /\
  sleeps (trace w') = sleeps (trace w) /\
  ncalls w' = ncalls w.
Proof.
  cbv zeta.
  destruct (handle_callback_cases uid chat_id name data w)
    as (msgs & -> & -> & Hm).
  rewrite answers_app, messages_app, generate_calls_app, sleeps_app, length_app.
  destruct Hm as [-> | [(text & ->) | (text & label & ->)]]; simpl;
    rewrite ?app_nil_r; repeat split; auto; lia.
Qed.

Lemma handle_message_offered
    (model : option client) (chat_id : Z) (text : option string) (w : world) :
  offered (trace (snd (handle_message model chat_id text w))) = offered (trace w).
Proof.
  destruct text as [t |]; [| reflexivity].
  destruct (is_empty t) eqn:He.
  - unfold handle_message. rewrite He. reflexivity.
  - rewrite (handle_message_shape model chat_id t w He). cbv zeta.
    pose proof (generate_quiet model t
      (World (sessions w) (ncalls w)
             (trace w ++ [EvChatAction chat_id "typing"]))) as (_ & _ & _ & Ho).
    destruct (generate_response_with_retry model t _) as [[site r | e] w1];
      simpl in *; rewrite ?offered_app, Ho, offered_app; simpl;
      rewrite ?app_nil_r; reflexivity.
Qed.

Lemma invoke_offered_known (model : option client) (w : world) (i : invocation) :
  Forall known_code (offered (trace w)) ->
  Forall known_code (offered (trace (invoke model w i))).
Proof.
  intros Hw. destruct i as [| uid chat_id name data | chat_id text]; simpl.
  - rewrite offered_app. apply Forall_app. split; [exact Hw |].
    simpl. repeat (first [apply List.Forall_nil | apply List.Forall_cons]);
      unfold known_code; auto.
  - destruct (handle_callback_cases uid chat_id name data w)
      as (msgs & -> & _ & Hm).
    rewrite offered_app. apply Forall_app. split; [exact Hw |].
    destruct Hm as [-> | [(text & ->) | (text & label & ->)]]; simpl;
      repeat (first [apply List.Forall_nil | apply List.Forall_cons]);
      unfold known_code; auto.
  - rewrite handle_message_offered. exact Hw.
Qed.

Lemma fold_invoke_offered_known (model : option client) (invs : list invocation) :
  forall w,
    Forall known_code (offered (trace w)) ->
    Forall known_code (offered (trace (fold_left (invoke model) invs w))).
Proof.
  induction invs as [| i rest IH]; intros w Hw; simpl; [exact Hw |].
  apply IH. apply invoke_offered_known. exact Hw.
Qed.

Lemma known_code_sends_message
    (d : string) (uid chat_id : Z) (name : string) (w : world) :
  known_code d ->
  length (messages (trace (snd (handle_callback uid chat_id name (Some d) w))))
    = S (length (messages (trace w))).
Proof.
  intros Hd.
  destruct (handle_callback_cases uid chat_id name (Some d) w)
    as (msgs & Ht & _ & Hm).
  assert (Hne : msgs <> []).
  { intros ->. revert Ht.
    unfold handle_callback. cbv [bind ret emit user_data user_data_set].
    destruct Hd as [-> | [-> | ->]]; simpl; rewrite <- app_assoc;
      intros H; apply app_inv_head in H; discriminate H. }
  rewrite Ht, messages_app, length_app.
  destruct Hm as [-> | [(text & ->) | (text & label & ->)]];
    [congruence | |]; simpl; lia.
Qed.

(** X14. No dead buttons.  After any sequence of handler runs, every
    button the bot has shown (the two of /start, the one under a welcome
    text) carries one of the three codes [handle_callback] knows, and
    pressing it, in any state and by any user, sends exactly one
    message: it never falls into the branch that is silently ignored. *)
Theorem offered_buttons_are_handled
    (model : option client) (invs : list invocation) (d : string) :
  In d (offered (trace (run_all model invs))) ->
  (d = LANG_AMHARIC \/ d = LANG_ENGLISH \/ d = ACTION_ABOUT) /\
  forall (uid chat_id : Z) (name : string) (w : world),
    length (messages (trace (snd (handle_callback uid chat_id name (Some d) w))))
      = S (length (messages (trace w))).
Proof.
  intros Hin.
  assert (Hall : Forall known_code (offered (trace (run_all model invs)))).
  { apply fold_invoke_offered_known. constructor. }
  rewrite List.Forall_forall in Hall. specialize (Hall d Hin).
  split; [exact Hall |].
  intros uid chat_id name w. apply known_code_sends_message. exact Hall.
Qed.

Lemma offered_buttons_are_handled_witness :
  In LANG_ENGLISH (offered (trace (run_all None [InvStart]))) /\
  (LANG_ENGLISH = LANG_AMHARIC \/ LANG_ENGLISH = LANG_ENGLISH \/
   LANG_ENGLISH = ACTION_ABOUT) /\
  forall (uid chat_id : Z) (name : string) (w : world),
    length (messages
              (trace (snd (handle_callback uid chat_id name (Some LANG_ENGLISH) w))))
      = S (length (messages (trace w))).
Proof.
  assert (H : In LANG_ENGLISH (offered (trace (run_all None [InvStart]))))
    by (simpl; auto).
  split; [exact H |].
  exact (offered_buttons_are_handled None [InvStart] LANG_ENGLISH H).
Defined.

(** ** The greeting *)

Lemma contains_unfold (needle hay : string) :
  contains needle hay =
    String.prefix needle hay ||
    match hay with
    | EmptyString => false
    | String _ rest => contains needle rest
    end.
Proof. destruct hay; reflexivity. Qed.

Lemma prefix_app (needle rest : string) :
  String.prefix needle (needle +:+ rest) = true.
Proof.
  induction needle as [| c needle IH]; simpl.
  - destruct rest; reflexivity.
  - destruct (Ascii.ascii_dec c c); [exact IH | congruence].
Qed.

Lemma contains_skip (before needle hay : string) :
  contains needle hay = true -> contains needle (before +:+ hay) = true.
Proof.
  intros H. induction before as [| c before IH]; simpl; [exact H |].
  rewrite IH. apply orb_true_r.
Qed.

Lemma append_assoc (a b c : string) : (a +:+ b) +:+ c = a +:+ (b +:+ c).
Proof.
  induction a as [| x a IH]; [reflexivity |].
  change (String x ((a +:+ b) +:+ c) = String x (a +:+ (b +:+ c))).
  rewrite IH. reflexivity.
Qed.

(** A string built around [needle] contains it. *)
Lemma contains_middle (before needle after tail : string) :
  contains needle ((before +:+ needle +:+ after) +:+ tail) = true.
Proof.
  rewrite !append_assoc. apply contains_skip.
  rewrite contains_unfold, prefix_app. reflexivity.
Qed.

(** X15. The welcome text addresses the user.  For either language code
    the callback answers the query and edits the message into a welcome
    text with one button, whose data is [ACTION_ABOUT]; the text
    contains the first name of the user, or "ጌታዬ" when the first name
    is empty. *)
Theorem welcome_addresses_user
    (code : string) (uid chat_id : Z) (name : string) (w : world) :
  code = LANG_AMHARIC \/ code = LANG_ENGLISH ->
  exists text label,
    trace (snd (handle_callback uid chat_id name (Some code) w)) =
      trace w ++ [EvAnswer; EvEditMessageText text [[(label, ACTION_ABOUT)]]] /\
    (name <> "" -> contains name text = true) /\
    (name = "" -> contains "ጌታዬ" text = true).
Proof.
  intros Hcode.
  assert (Hex : existsb (String.eqb code) [LANG_AMHARIC; LANG_ENGLISH] = true)
    by (apply existsb_lang; exact Hcode).
  unfold handle_callback. cbv [bind ret emit user_data user_data_set NL].
  rewrite Hex.
  destruct (String.eqb code LANG_AMHARIC); cbv beta iota zeta;
    cbn [snd trace]; rewrite <- app_assoc; do 2 eexists;
    (split; [reflexivity |]); split.
  - intros Hne. apply is_empty_false in Hne. rewrite Hne. apply contains_middle.
  - intros ->. apply contains_middle.
  - intros Hne. apply is_empty_false in Hne. rewrite Hne. apply contains_middle.
  - intros ->. apply contains_middle.
Qed.

Lemma welcome_addresses_user_witness :
  (LANG_AMHARIC = LANG_AMHARIC \/ LANG_AMHARIC = LANG_ENGLISH) /\
  exists text label,
    trace (snd (handle_callback 7 70 "" (Some LANG_AMHARIC) initial_world)) =
      trace initial_world
        ++ [EvAnswer; EvEditMessageText text [[(label, ACTION_ABOUT)]]] /\
    ("" <> "" -> contains "" text = true) /\
    ("" = "" -> contains "ጌታዬ" text = true).
Proof.
  split; [left; reflexivity |].
  exact (welcome_addresses_user LANG_AMHARIC 7 70 "" initial_world
           (or_introl eq_refl)).
Defined.

(** ** One message per handled update *)

Lemma handle_callback_messages
    (uid chat_id : Z) (name : string) (data : option string) (w : world) :
  length (messages (trace (snd (handle_callback uid chat_id name data w)))) =
    (length (messages (trace w))
     + (if expects_reply (InvCallback uid chat_id name data) then 1 else 0))%nat.
Proof.
  unfold handle_callback. cbv [bind ret emit user_data user_data_set]. simpl.
  destruct data as [d |]; simpl.
  - destruct (String.eqb d LANG_AMHARIC); simpl;
      [rewrite !messages_app, !length_app; simpl; lia |].
    destruct (String.eqb d LANG_ENGLISH); simpl;
      [rewrite !messages_app, !length_app; simpl; lia |].
    destruct (String.eqb d ACTION_ABOUT); simpl;
      rewrite !messages_app, !length_app; simpl; lia.
  - rewrite !messages_app, !length_app; simpl; lia.
Qed.

Lemma handle_message_messages
    (model : option client) (chat_id : Z) (text : option string) (w : world) :
  (forall p, model_raises_only_exceptions model p) ->
  length (messages (trace (snd (handle_message model chat_id text w)))) =
    (length (messages (trace w))
     + (if expects_reply (InvMessage chat_id text) then 1 else 0))%nat.
Proof.
  intros Hexc. destruct text as [t |]; [| simpl; lia].
  simpl expects_reply. destruct (is_empty t) eqn:He.
  - unfold handle_message. rewrite He. simpl. lia.
  - rewrite (handle_message_shape model chat_id t w He). cbv zeta.
    set (w0 := World (sessions w) (ncalls w)
                     (trace w ++ [EvChatAction chat_id "typing"])).
    destruct (generate_returns model t w0 (Hexc t)) as (site & r & Hr & _).
    pose proof (generate_quiet model t w0) as (_ & Hm & _).
    destruct (generate_response_with_retry model t w0) as [res w1].
    simpl in Hr, Hm. subst res. simpl.
    rewrite messages_app, Hm, messages_app, !length_app. simpl. lia.
Qed.

Lemma invoke_messages (model : option client) (w : world) (i : invocation) :
  (forall p, model_raises_only_exceptions model p) ->
  length (messages (trace (invoke model w i))) =
    (length (messages (trace w)) + (if expects_reply i then 1 else 0))%nat.
Proof.
  intros Hexc. destruct i as [| uid chat_id name data | chat_id text].
  - simpl. rewrite messages_app, length_app. reflexivity.
  - apply handle_callback_messages.
  - apply handle_message_messages. exact Hexc.
Qed.

Lemma fold_invoke_messages (model : option client) (invs : list invocation) :
  (forall p, model_raises_only_exceptions model p) ->
  forall w,
    length (messages (trace (fold_left (invoke model) invs w))) =
      (length (messages (trace w)) + length (List.filter expects_reply invs))%nat.
Proof.
  intros Hexc. induction invs as [| i rest IH]; intros w; simpl; [lia |].
  rewrite IH, (invoke_messages model w i Hexc).
  destruct (expects_reply i); simpl; lia.
Qed.

(** X6. One message per handled update, none for the others.  When the
    client fails only with [Exception]s, the number of messages the bot
    has sent after any sequence of handler runs is the number of runs
    that are a /start, a callback with one of the three known codes, or
    a message with a text that is not empty: messages without text,
    empty texts and unknown callbacks get nothing, and nothing gets
    two. *)
Theorem one_message_per_handled_update
    (model : option client) (invs : list invocation) :
  (forall p, model_raises_only_exceptions model p) ->
  length (messages (trace (run_all model invs)))
    = length (List.filter expects_reply invs).
Proof.
  intros Hexc.
  exact (fold_invoke_messages model invs Hexc initial_world).
Qed.

Lemma one_message_per_handled_update_witness :
  let invs :=
    [InvStart; InvCallback 7 70 "Sara" (Some LANG_ENGLISH);
     InvMessage 70 (Some ""); InvMessage 70 (Some "hello");
     InvCallback 7 70 "Sara" (Some "DELETE_ALL"); InvMessage 70 None;
     InvCallback 7 70 "Sara" (Some ACTION_ABOUT)] in
  (forall p, model_raises_only_exceptions (Some always_api_error) p) /\
  length (messages (trace (run_all (Some always_api_error) invs))) = 4%nat.
Proof.
  intros invs.
  assert (H : forall p, model_raises_only_exceptions (Some always_api_error) p)
    by (intros p n name; discriminate).
  split; [exact H |].
  exact (one_message_per_handled_update (Some always_api_error) invs H).
Defined.
